(** * The counter and posts slices of the Redux Toolkit example

    A shallow embedding of the state logic of the example application:

    - [counterSlice]  (features/counter/counterSlice.js): an array of
      [{id, value}] counters with the [increment] and [decrement] case
      reducers;
    - [postSlice]     (features/counter/postSlice.js): the [fetchPosts]
      thunk and the three lifecycle case reducers;
    - [store]         (app/store.js): [configureStore] with the reducer map
      [{counters, posts}].

    JavaScript values are kept as a small universe [JsVal]; a computation
    either returns or throws ([Completion]).  The counters hold JS numbers
    that start at 0 and only ever move by one, so they are taken as
    integers ([Z]); this is exact inside the safe-integer range
    (below 2^53 in absolute value). *)

From stdpp Require Import base list strings.
From Stdlib Require Import ZArith Lia.

#[local] Set Warnings "-register-all".

Local Open Scope Z_scope.

(* ------------------------------------------------------------------ *)
(** ** JavaScript values and completions *)

Module Js.

Inductive JsVal : Type :=
| VUndefined
| VNull
| VBool (b : bool)
| VNum (n : Z)
| VStr (s : string)
| VArr (elems : list JsVal)
| VObj (fields : list (string * JsVal)).

(** A thrown [Error] object: its [name] and its [message]. *)
Record JsError : Type := mkError { name : string; message : string }.

Definition TypeError (msg : string) : JsError := mkError "TypeError" msg.

(** The result of running a piece of JavaScript: a value, or an exception
    that unwinds to the caller. *)
Inductive Completion (A : Type) : Type :=
| Returns (a : A)
| Throws (e : JsError).
Arguments Returns {A} a.
Arguments Throws {A} e.

Definition bind {A B} (m : Completion A) (k : A -> Completion B)
  : Completion B :=
  match m with
  | Returns a => k a
  | Throws e => Throws e
  end.

(** An object is the list of its own properties, each key bound once; the
    lookup reads the binding of the key, [undefined] when there is none. *)
Fixpoint own_prop (fields : list (string * JsVal)) (key : string) : JsVal :=
  match fields with
  | [] => VUndefined
  | (k, v) :: rest => if String.eqb k key then v else own_prop rest key
  end.

(** [v.key] for a key that no built-in prototype defines (the program
    reads only [id] and [message]): reading a property of [undefined] or
    [null] throws a TypeError, a primitive or an array has no such
    property, an object is looked up. *)
Definition get_prop (v : JsVal) (key : string) : Completion JsVal :=
  match v with
  | VUndefined =>
      Throws (TypeError ("Cannot read properties of undefined (reading '"
                           +:+ key +:+ "')"))
  | VNull =>
      Throws (TypeError ("Cannot read properties of null (reading '"
                           +:+ key +:+ "')"))
  | VObj fields => Returns (own_prop fields key)
  | _ => Returns VUndefined
  end.

(** [n === v] where the left operand is a number. *)
Definition strict_eq_num (n : Z) (v : JsVal) : bool :=
  match v with
  | VNum m => Z.eqb n m
  | _ => false
  end.

(** [Array.prototype.findIndex]: the index of the first element the
    callback accepts, [-1] when there is none.  The callback may throw;
    [i] is the index of the head of [l]. *)
Fixpoint findIndex_from {A} (p : A -> Completion bool) (l : list A) (i : Z)
  : Completion Z :=
  match l with
  | [] => Returns (-1)
  | x :: rest =>
      bind (p x) (fun b =>
        if b then Returns i else findIndex_from p rest (i + 1))
  end.

Definition findIndex {A} (p : A -> Completion bool) (l : list A)
  : Completion Z :=
  findIndex_from p l 0.

(** [arr[i]] for a number [i]: [None] stands for [undefined], which is what
    an index outside the array (for instance [-1]) reads. *)
Definition index {A} (arr : list A) (i : Z) : option A :=
  if Z.ltb i 0 then None else arr !! Z.to_nat i.

End Js.

Import Js.

Notation "'let*' x ':=' m 'in' k" := (bind m (fun x => k))
  (at level 10, x name, m at level 100, k at level 200).

(* ------------------------------------------------------------------ *)
(** ** Actions *)

(** A Redux action [{type, payload, error}]; a field the action does not
    carry reads as [undefined]. *)
Module Action.
Record t : Type := mk { type : string; payload : JsVal; error : JsVal }.
End Action.

(* ------------------------------------------------------------------ *)
(** ** counterSlice *)

Module counterSlice.

Record Counter : Type := mkCounter { id : Z; value : Z }.

Abbreviation State := (list Counter).

Definition initialState : State :=
  [ {| id := 1; value := 0 |}; {| id := 2; value := 0 |} ].

Definition name : string := "counters".

(** [c => c.id === action.payload.id] *)
Definition matches (action : Action.t) (c : Counter) : Completion bool :=
  let* pid := get_prop (Action.payload action) "id" in
  Returns (strict_eq_num (id c) pid).

(** What reading [.value] of [undefined] throws. *)
Definition undefined_value_error : JsError :=
  TypeError "Cannot read properties of undefined (reading 'value')".

(** [state[counterIndex].value] is rewritten to [f] of itself; reading
    [.value] of [undefined] throws. *)
Definition update_value (f : Z -> Z) (state : State) (counterIndex : Z)
  : Completion State :=
  match index state counterIndex with
  | None => Throws undefined_value_error
  | Some c =>
      Returns (<[Z.to_nat counterIndex :=
                   {| id := id c; value := f (value c) |}]> state)
  end.

Module reducers.

Definition increment (state : State) (action : Action.t)
  : Completion State :=
  let* counterIndex := findIndex (matches action) state in
  update_value Z.succ state counterIndex.

Definition decrement (state : State) (action : Action.t)
  : Completion State :=
  let* counterIndex := findIndex (matches action) state in
  update_value Z.pred state counterIndex.

End reducers.

(** The payload [{id: k}] the components dispatch. *)
Definition id_payload (k : Z) : JsVal := VObj [ ("id", VNum k) ].

(** The action creators [createSlice] generates. *)
Module actions.

Definition increment (payload : JsVal) : Action.t :=
  Action.mk (name +:+ "/increment") payload VUndefined.

Definition decrement (payload : JsVal) : Action.t :=
  Action.mk (name +:+ "/decrement") payload VUndefined.

End actions.

(** The slice reducer: a case reducer runs when the action type is its
    own, any other action returns the state as it is. *)
Definition reducer (state : State) (action : Action.t) : Completion State :=
  if String.eqb (Action.type action) (name +:+ "/increment")
  then reducers.increment state action
  else if String.eqb (Action.type action) (name +:+ "/decrement")
  then reducers.decrement state action
  else Returns state.

End counterSlice.

(* ------------------------------------------------------------------ *)
(** ** createAsyncThunk *)

Module asyncThunk.

(** The three lifecycle action types of a thunk with the given prefix. *)
Definition pending_type (typePrefix : string) : string :=
  typePrefix +:+ "/pending".
Definition fulfilled_type (typePrefix : string) : string :=
  typePrefix +:+ "/fulfilled".
Definition rejected_type (typePrefix : string) : string :=
  typePrefix +:+ "/rejected".

Definition pending (typePrefix : string) : Action.t :=
  Action.mk (pending_type typePrefix) VUndefined VUndefined.

Definition fulfilled (typePrefix : string) (payload : JsVal) : Action.t :=
  Action.mk (fulfilled_type typePrefix) payload VUndefined.

(** [miniSerializeError]: the string fields of the thrown error that the
    rejected action keeps (the engine-specific [stack] is left out). *)
Definition miniSerializeError (e : JsError) : JsVal :=
  VObj [ ("name", VStr (Js.name e)); ("message", VStr (Js.message e)) ].

Definition rejected (typePrefix : string) (e : JsError) : Action.t :=
  Action.mk (rejected_type typePrefix) VUndefined (miniSerializeError e).

(** The actions one run of the thunk dispatches, in order: [pending] before
    the payload creator runs, then [fulfilled] with what it returned or
    [rejected] with what it threw. *)
Definition dispatched (typePrefix : string) (outcome : Completion JsVal)
  : list Action.t :=
  [ pending typePrefix;
    match outcome with
    | Returns data => fulfilled typePrefix data
    | Throws e => rejected typePrefix e
    end ].

End asyncThunk.

(* ------------------------------------------------------------------ *)
(** ** postSlice *)

Module postSlice.

Record State : Type := mkState {
  posts : JsVal;
  isLoading : bool;
  isError : bool;
  error : JsVal
}.

Definition initialState : State :=
  {| posts := VArr []; isLoading := false; isError := false;
     error := VStr "" |}.

(** What [fetch(url)] settles to: a response, whatever its HTTP status, or
    a thrown network error.  [json] is what [response.json()] settles to. *)
Record Response : Type := mkResponse {
  status : Z;
  json : Completion JsVal
}.

(** [response.ok]: the status is in the range 200-299. *)
Definition ok (response : Response) : bool :=
  Z.leb 200 (status response) && Z.leb (status response) 299.

Definition typePrefix : string := "posts/fetchPosts".

Definition url : string := "https://jsonplaceholder.typicode.com/posts".

(** The payload creator of [fetchPosts], run against the network [fetch]. *)
Definition payloadCreator (fetch : string -> Completion Response)
  : Completion JsVal :=
  let* response := fetch url in
  let* data := json response in
  Returns data.

(** The actions [dispatch(fetchPosts())] dispatches. *)
Definition fetchPosts (fetch : string -> Completion Response)
  : list Action.t :=
  asyncThunk.dispatched typePrefix (payloadCreator fetch).

Module extraReducers.

Definition pending (state : State) : State :=
  {| posts := posts state; isLoading := true; isError := false;
     error := VStr "" |}.

Definition fulfilled (state : State) (action : Action.t) : State :=
  {| posts := Action.payload action; isLoading := false;
     isError := isError state; error := error state |}.

Definition rejected (state : State) (action : Action.t) : Completion State :=
  let* msg := get_prop (Action.error action) "message" in
  Returns {| posts := posts state; isLoading := false; isError := true;
             error := msg |}.

End extraReducers.

Definition reducer (state : State) (action : Action.t) : Completion State :=
  if String.eqb (Action.type action) (asyncThunk.pending_type typePrefix)
  then Returns (extraReducers.pending state)
  else if String.eqb (Action.type action)
                     (asyncThunk.fulfilled_type typePrefix)
  then Returns (extraReducers.fulfilled state action)
  else if String.eqb (Action.type action)
                     (asyncThunk.rejected_type typePrefix)
  then extraReducers.rejected state action
  else Returns state.

(** The slice keeps two flags where a reader thinks of one status.  The
    flags are read in the order the Posts component of the README tests
    them: loading first, then error.  No flag tells a region that was never
    fetched from one that was fetched successfully. *)
Inductive Status : Type := Loading | Failed | IdleOrSucceeded.

Definition status_of (state : State) : Status :=
  if isLoading state then Loading
  else if isError state then Failed
  else IdleOrSucceeded.

(** A run of actions through the slice reducer; it stops at the first
    exception. *)
Fixpoint reduce_all (state : State) (actions : list Action.t)
  : Completion State :=
  match actions with
  | [] => Returns state
  | a :: rest => let* next := reducer state a in reduce_all next rest
  end.

(** The regions the reducer can reach from the initial one through actions
    that all satisfy [P]. *)
Inductive reachable_by (P : Action.t -> Prop) : State -> Prop :=
| reachable_init : reachable_by P initialState
| reachable_step state action next :
    reachable_by P state ->
    P action ->
    reducer state action = Returns next ->
    reachable_by P next.

Definition reachable : State -> Prop := reachable_by (fun _ => True).

(** A rejected action that carries a non-empty message string; an action of
    another type is not constrained. *)
Definition rejection_has_message (action : Action.t) : Prop :=
  Action.type action = asyncThunk.rejected_type typePrefix ->
  exists m, get_prop (Action.error action) "message" = Returns (VStr m)
            /\ m <> "".

(** The error message is present: a non-empty string. *)
Definition error_present (state : State) : bool :=
  match error state with
  | VStr m => negb (String.eqb m "")
  | _ => false
  end.

End postSlice.

(* ------------------------------------------------------------------ *)
(** ** The store *)

Module store.

Record RootState : Type := mkRoot {
  counters : counterSlice.State;
  posts : postSlice.State
}.

Definition initialState : RootState :=
  {| counters := counterSlice.initialState;
     posts := postSlice.initialState |}.

(** [configureStore({reducer: {counters, posts}})] combines the slice
    reducers: each runs on its own key, in the order of the keys. *)
Definition rootReducer (state : RootState) (action : Action.t)
  : Completion RootState :=
  let* nextCounters := counterSlice.reducer (counters state) action in
  let* nextPosts := postSlice.reducer (posts state) action in
  Returns {| counters := nextCounters; posts := nextPosts |}.

(** [store.dispatch(action)]: the snapshot is replaced when the root reducer
    returns; when it throws, the snapshot stays and the exception reaches
    the caller. *)
Definition dispatch (state : RootState) (action : Action.t)
  : RootState * option JsError :=
  match rootReducer state action with
  | Returns next => (next, None)
  | Throws e => (state, Some e)
  end.

(** A run of dispatches; it stops at the first exception. *)
Fixpoint dispatch_all (state : RootState) (actions : list Action.t)
  : RootState * option JsError :=
  match actions with
  | [] => (state, None)
  | a :: rest =>
      match dispatch state a with
      | (next, None) => dispatch_all next rest
      | (next, Some e) => (next, Some e)
      end
  end.

(** The action types some slice reducer has a case for. *)
Definition recognized_types : list string :=
  [ counterSlice.name +:+ "/increment";
    counterSlice.name +:+ "/decrement";
    asyncThunk.pending_type postSlice.typePrefix;
    asyncThunk.fulfilled_type postSlice.typePrefix;
    asyncThunk.rejected_type postSlice.typePrefix ].

End store.

(* ------------------------------------------------------------------ *)
(** ** Runs of counter actions *)

Module counterRuns.

(** A run of actions through the counters reducer; it stops at the first
    exception. *)
Fixpoint reduce_all (state : counterSlice.State) (actions : list Action.t)
  : Completion counterSlice.State :=
  match actions with
  | [] => Returns state
  | a :: rest =>
      let* next := counterSlice.reducer state a in reduce_all next rest
  end.

(** The case reducers read as one pass over the array: the first counter
    whose [id] is strictly equal to [pid] gets [f] of its value, [None] when
    no counter has it.  The case reducers are shown to compute this. *)
Fixpoint update_first (f : Z -> Z) (pid : JsVal) (state : counterSlice.State)
  : option counterSlice.State :=
  match state with
  | [] => None
  | c :: rest =>
      if strict_eq_num (counterSlice.id c) pid
      then Some ({| counterSlice.id := counterSlice.id c;
                    counterSlice.value := f (counterSlice.value c) |} :: rest)
      else cons c <$> update_first f pid rest
  end.

(** [value++] and [value--], the two updates the case reducers make. *)
Definition is_step (f : Z -> Z) : Prop := f = Z.succ \/ f = Z.pred.

End counterRuns.

(* ------------------------------------------------------------------ *)
(** ** The Counter component *)

Module Counter.

(** What [Counter({counter, onIncrement, onDecrement})] renders: the
    heading [Counter {counter.id}: {counter.value}] and two buttons, each
    with its label and its [onClick]. *)
Record View (Handler : Type) : Type := mkView {
  heading_id : Z;
  heading_value : Z;
  first_button : string * Handler;
  second_button : string * Handler
}.
Arguments mkView {Handler}.
Arguments heading_id {Handler}.
Arguments heading_value {Handler}.
Arguments first_button {Handler}.
Arguments second_button {Handler}.

Definition Counter {Handler : Type} (counter : counterSlice.Counter)
    (onIncrement onDecrement : Handler) : View Handler :=
  {| heading_id := counterSlice.id counter;
     heading_value := counterSlice.value counter;
     first_button := ("Decrement (-)", onDecrement);
     second_button := ("Increment (+)", onIncrement) |}.

End Counter.

(* ------------------------------------------------------------------ *)
(** ** The App component *)

Module App.

(** [counters.reduce((total, counter) => total + counter.value, 0)] *)
Definition totalCount (counters : counterSlice.State) : Z :=
  fold_left (fun total counter => total + counterSlice.value counter)
            counters 0.

(** A handler runs against the snapshot the store holds when the button is
    clicked. *)
Definition Handler : Type :=
  store.RootState -> store.RootState * option JsError.

Definition handleIncrement (counterId : Z) : Handler :=
  fun state =>
    store.dispatch state
      (counterSlice.actions.increment (counterSlice.id_payload counterId)).

Definition handleDecrement (counterId : Z) : Handler :=
  fun state =>
    store.dispatch state
      (counterSlice.actions.decrement (counterSlice.id_payload counterId)).

(** [counters.map(counter => <Counter ... />)]: one Counter per entry, in
    the order of the array, with handlers bound to the id of its entry. *)
Definition counter_views (state : store.RootState)
  : list (Counter.View Handler) :=
  (fun counter =>
     Counter.Counter counter
       (handleIncrement (counterSlice.id counter))
       (handleDecrement (counterSlice.id counter)))
  <$> store.counters state.

(** A click on the button labelled [label] of the [i]-th Counter on screen;
    [None] when the screen has no such button. *)
Definition click (state : store.RootState) (i : nat) (label : string)
  : option (store.RootState * option JsError) :=
  match counter_views state !! i with
  | None => None
  | Some view =>
      if String.eqb label (fst (Counter.first_button view))
      then Some (snd (Counter.first_button view) state)
      else if String.eqb label (fst (Counter.second_button view))
      then Some (snd (Counter.second_button view) state)
      else None
  end.

End App.

(* ------------------------------------------------------------------ *)
(** ** The Posts component *)

Module Posts.

(** What the component function returns, part by part: whether the
    [Loading...] paragraph is there, the value shown after [Error: ] when
    the error paragraph is there, and for each [li] its [key] and its
    child. *)
Record View : Type := mkView {
  loading_line : bool;
  error_line : option JsVal;
  items : list (JsVal * JsVal)
}.

Fixpoint mapM {A B} (f : A -> Completion B) (l : list A)
  : Completion (list B) :=
  match l with
  | [] => Returns []
  | x :: rest =>
      let* y := f x in
      let* ys := mapM f rest in
      Returns (y :: ys)
  end.

(** [v.map(f)]: an array maps its elements in order; reading [map] of
    [undefined] or [null] throws, and on any other value [map] is not a
    function. *)
Definition array_map {B} (v : JsVal) (f : JsVal -> Completion B)
  : Completion (list B) :=
  match v with
  | VArr elems => mapM f elems
  | VUndefined =>
      Throws (TypeError "Cannot read properties of undefined (reading 'map')")
  | VNull =>
      Throws (TypeError "Cannot read properties of null (reading 'map')")
  | _ => Throws (TypeError "posts.posts.map is not a function")
  end.

(** [post => <li key={post.id}>{post.title}</li>] *)
Definition item (post : JsVal) : Completion (JsVal * JsVal) :=
  let* key := get_prop post "id" in
  let* title := get_prop post "title" in
  Returns (key, title).

(** The component function on the snapshot [useSelector] reads. *)
Definition Posts (state : store.RootState) : Completion View :=
  let posts := store.posts state in
  let* lis := array_map (postSlice.posts posts) item in
  Returns {| loading_line := postSlice.isLoading posts;
             error_line := if postSlice.isError posts
                           then Some (postSlice.error posts) else None;
             items := lis |}.

(** The effect that runs when the component mounts:
    [dispatch(fetchPosts())], the thunk running to its end. *)
Definition mount (state : store.RootState)
    (fetch : string -> Completion postSlice.Response)
  : store.RootState * option JsError :=
  store.dispatch_all state (postSlice.fetchPosts fetch).

End Posts.

(* ------------------------------------------------------------------ *)
(** ** Runs of lifecycle actions, read backwards *)

Module history.

Definition is_pending (a : Action.t) : bool :=
  String.eqb (Action.type a) (asyncThunk.pending_type postSlice.typePrefix).

Definition is_fulfilled (a : Action.t) : bool :=
  String.eqb (Action.type a) (asyncThunk.fulfilled_type postSlice.typePrefix).

Definition is_rejected (a : Action.t) : bool :=
  String.eqb (Action.type a) (asyncThunk.rejected_type postSlice.typePrefix).

(** The last action of a run that satisfies [P]. *)
Fixpoint last_where (P : Action.t -> bool) (actions : list Action.t)
  : option Action.t :=
  match actions with
  | [] => None
  | a :: rest =>
      match last_where P rest with
      | Some b => Some b
      | None => if P a then Some a else None
      end
  end.

End history.

(* ================================================================== *)
(** * Properties *)

(** ** Completions *)

Lemma bind_Returns_inv {A B} (m : Completion A) (k : A -> Completion B) b :
  bind m k = Returns b -> exists a, m = Returns a /\ k a = Returns b.
Proof. destruct m as [a|e]; simpl; [eauto | discriminate]. Qed.

(** ** findIndex and the indexed update *)

Section FindIndex.

Context {A : Type} (p : A -> Completion bool).

Lemma findIndex_from_miss (l : list A) (i : Z) :
  Forall (fun x => p x = Returns false) l ->
  findIndex_from p l i = Returns (-1).
Proof.
  intros Hall. revert i.
  induction Hall as [|x l Hx _ IH]; intros i; simpl; [reflexivity|].
  rewrite Hx. simpl. apply IH.
Qed.

Lemma findIndex_from_hit (pre post : list A) (x : A) (i : Z) :
  Forall (fun y => p y = Returns false) pre ->
  p x = Returns true ->
  findIndex_from p (pre ++ x :: post) i = Returns (i + Z.of_nat (length pre)).
Proof.
  intros Hpre Hx. revert i.
  induction Hpre as [|y pre Hy _ IH]; intros i; simpl.
  - rewrite Hx. simpl. f_equal. lia.
  - rewrite Hy. simpl. rewrite IH. f_equal. lia.
Qed.

(** An index that [findIndex] returns is [-1] or lies inside the array. *)
Lemma findIndex_from_range (l : list A) (i k : Z) :
  findIndex_from p l i = Returns k ->
  k = -1 \/ (i <= k < i + Z.of_nat (length l)).
Proof.
  revert i. induction l as [|x l IH]; intros i; simpl.
  - intros [= <-]. now left.
  - intros H. apply bind_Returns_inv in H as ([|] & _ & H).
    + injection H as <-. right. lia.
    + apply IH in H as [->|H]; [now left | right; lia].
Qed.

End FindIndex.

Lemma update_value_miss f (state : counterSlice.State) :
  counterSlice.update_value f state (-1) = Throws counterSlice.undefined_value_error.
Proof. reflexivity. Qed.

Lemma update_value_hit f (pre post : counterSlice.State) c :
  counterSlice.update_value f (pre ++ c :: post) (0 + Z.of_nat (length pre))
  = Returns (pre ++ {| counterSlice.id := counterSlice.id c;
                       counterSlice.value := f (counterSlice.value c) |}
                 :: post).
Proof.
  unfold counterSlice.update_value, index.
  rewrite Z.add_0_l.
  destruct (Z.ltb_spec (Z.of_nat (length pre)) 0) as [Hneg|_]; [lia|].
  rewrite Nat2Z.id, list_lookup_middle by reflexivity.
  f_equal. rewrite insert_app_r_alt by reflexivity.
  now rewrite Nat.sub_diag.
Qed.

Lemma matches_id_payload (t : string) (k : Z) (e : JsVal) c :
  counterSlice.matches (Action.mk t (counterSlice.id_payload k) e) c
  = Returns (Z.eqb (counterSlice.id c) k).
Proof. reflexivity. Qed.

Lemma matches_all_false (t : string) (k : Z) (e : JsVal)
      (l : counterSlice.State) :
  Forall (fun c => counterSlice.id c <> k) l ->
  Forall (fun c => counterSlice.matches (Action.mk t (counterSlice.id_payload k) e) c
                   = Returns false) l.
Proof.
  intros H. eapply Forall_impl; [exact H|].
  intros c Hc. rewrite matches_id_payload. f_equal. now apply Z.eqb_neq.
Qed.

(** What a case reducer does on a hit and on a miss, for [value++] and
    [value--] alike. *)
Lemma find_update_hit f t e (pre post : counterSlice.State) k v :
  Forall (fun c => counterSlice.id c <> k) pre ->
  bind (findIndex (counterSlice.matches (Action.mk t (counterSlice.id_payload k) e))
                  (pre ++ counterSlice.mkCounter k v :: post))
       (counterSlice.update_value f
          (pre ++ counterSlice.mkCounter k v :: post))
  = Returns (pre ++ counterSlice.mkCounter k (f v) :: post).
Proof.
  intros Hpre. unfold findIndex.
  rewrite findIndex_from_hit.
  - simpl bind. apply update_value_hit.
  - now apply matches_all_false.
  - rewrite matches_id_payload. simpl. now rewrite Z.eqb_refl.
Qed.

Lemma find_update_miss f t e (state : counterSlice.State) k :
  Forall (fun c => counterSlice.id c <> k) state ->
  bind (findIndex (counterSlice.matches (Action.mk t (counterSlice.id_payload k) e)) state)
       (counterSlice.update_value f state)
  = Throws counterSlice.undefined_value_error.
Proof.
  intros Hall. unfold findIndex.
  rewrite findIndex_from_miss by now apply matches_all_false.
  reflexivity.
Qed.

(** An update keeps every [id] in its place. *)
Lemma update_value_ids f (state state' : counterSlice.State) i :
  counterSlice.update_value f state i = Returns state' ->
  counterSlice.id <$> state' = counterSlice.id <$> state.
Proof.
  unfold counterSlice.update_value, index.
  destruct (Z.ltb i 0); [discriminate|].
  destruct (state !! Z.to_nat i) as [c|] eqn:Hc; [|discriminate].
  intros [= <-]. rewrite list_fmap_insert. simpl.
  apply list_insert_id. now rewrite list_lookup_fmap, Hc.
Qed.

Lemma case_reducer_ids f a (state state' : counterSlice.State) :
  bind (findIndex (counterSlice.matches a) state)
       (counterSlice.update_value f state) = Returns state' ->
  counterSlice.id <$> state' = counterSlice.id <$> state.
Proof.
  intros H. apply bind_Returns_inv in H as (i & _ & H).
  eapply update_value_ids, H.
Qed.

(** ** counterSlice: lookup miss (C1) *)

(** The components only dispatch ids read from the store, and neither case
    reducer guards the index [findIndex] returns.  With no counter of id 3
    in the initial state, [increment({id: 3})] and [decrement({id: 3})]
    throw instead of returning the region. *)
Lemma lookup_miss_is_a_fault :
  counterSlice.reducer counterSlice.initialState
    (counterSlice.actions.increment (counterSlice.id_payload 3))
  = Throws counterSlice.undefined_value_error
  /\ counterSlice.reducer counterSlice.initialState
       (counterSlice.actions.decrement (counterSlice.id_payload 3))
     = Throws counterSlice.undefined_value_error
  /\ counterSlice.reducer counterSlice.initialState
       (counterSlice.actions.increment (counterSlice.id_payload 3))
     <> Returns counterSlice.initialState.
Proof. split; [reflexivity | split; [reflexivity | discriminate]]. Qed.

(** C1.  When no counter of the region has id [k],
    [increment({id: k})] and [decrement({id: k})] throw a TypeError and
    return no region; a dispatch of either leaves the snapshot of the store
    as it was and hands the exception to the caller. *)
Theorem lookup_miss_throws (s : store.RootState) (k : Z) :
  Forall (fun c => counterSlice.id c <> k) (store.counters s) ->
  counterSlice.reducer (store.counters s)
    (counterSlice.actions.increment (counterSlice.id_payload k))
  = Throws counterSlice.undefined_value_error
  /\ counterSlice.reducer (store.counters s)
       (counterSlice.actions.decrement (counterSlice.id_payload k))
     = Throws counterSlice.undefined_value_error
  /\ store.dispatch s (counterSlice.actions.increment (counterSlice.id_payload k))
     = (s, Some counterSlice.undefined_value_error)
  /\ store.dispatch s (counterSlice.actions.decrement (counterSlice.id_payload k))
     = (s, Some counterSlice.undefined_value_error).
Proof.
  intros Hmiss.
  assert (Hinc : counterSlice.reducer (store.counters s)
                   (counterSlice.actions.increment (counterSlice.id_payload k))
                 = Throws counterSlice.undefined_value_error)
    by (apply (find_update_miss Z.succ); exact Hmiss).
  assert (Hdec : counterSlice.reducer (store.counters s)
                   (counterSlice.actions.decrement (counterSlice.id_payload k))
                 = Throws counterSlice.undefined_value_error)
    by (apply (find_update_miss Z.pred); exact Hmiss).
  split; [exact Hinc|]. split; [exact Hdec|]. split.
  - unfold store.dispatch, store.rootReducer. now rewrite Hinc.
  - unfold store.dispatch, store.rootReducer. now rewrite Hdec.
Qed.

Lemma lookup_miss_throws_witness :
  Forall (fun c => counterSlice.id c <> 7)
         (store.counters store.initialState)
  /\ store.dispatch store.initialState
       (counterSlice.actions.increment (counterSlice.id_payload 7))
     = (store.initialState, Some counterSlice.undefined_value_error).
Proof.
  assert (H : Forall (fun c => counterSlice.id c <> 7)
                     (store.counters store.initialState))
    by (repeat constructor; simpl; lia).
  split; [exact H|].
  exact (proj1 (proj2 (proj2 (lookup_miss_throws store.initialState 7 H)))).
Defined.

(** ** counterSlice: lookup hit (C6) *)

(** C6.  In a region with unique ids that holds the entry [{id: k, value:
    v}], [increment({id: k})] returns the region with [v + 1] in that entry
    and [decrement({id: k})] returns it with [v - 1]; every other entry is
    as before.  No bound is checked: from [v = 0] a decrement gives [-1]. *)
Theorem increment_decrement_found (pre post : counterSlice.State) (k v : Z) :
  NoDup (counterSlice.id <$>
           (pre ++ counterSlice.mkCounter k v :: post)) ->
  counterSlice.reducer (pre ++ counterSlice.mkCounter k v :: post)
    (counterSlice.actions.increment (counterSlice.id_payload k))
  = Returns (pre ++ counterSlice.mkCounter k (v + 1) :: post)
  /\ counterSlice.reducer (pre ++ counterSlice.mkCounter k v :: post)
       (counterSlice.actions.decrement (counterSlice.id_payload k))
     = Returns (pre ++ counterSlice.mkCounter k (v - 1) :: post).
Proof.
  intros Hnodup.
  assert (Hpre : Forall (fun c => counterSlice.id c <> k) pre).
  { rewrite fmap_app, fmap_cons in Hnodup. simpl in Hnodup.
    apply NoDup_app in Hnodup as (_ & Hdisj & _).
    apply Forall_forall. intros c Hc Heq.
    apply (Hdisj k).
    - rewrite <- Heq. now apply list_elem_of_fmap_2.
    - left. }
  split.
  - apply (find_update_hit Z.succ); exact Hpre.
  - apply (find_update_hit Z.pred); exact Hpre.
Qed.

Lemma increment_decrement_found_witness :
  NoDup (counterSlice.id <$> counterSlice.initialState)
  /\ counterSlice.reducer counterSlice.initialState
       (counterSlice.actions.increment (counterSlice.id_payload 1))
     = Returns [ counterSlice.mkCounter 1 1; counterSlice.mkCounter 2 0 ]
  /\ counterSlice.reducer counterSlice.initialState
       (counterSlice.actions.decrement (counterSlice.id_payload 1))
     = Returns [ counterSlice.mkCounter 1 (-1); counterSlice.mkCounter 2 0 ].
Proof.
  assert (H : NoDup (counterSlice.id <$>
                       ([] ++ counterSlice.mkCounter 1 0
                           :: [counterSlice.mkCounter 2 0]))).
  { simpl. repeat constructor; rewrite ?list_elem_of_In; simpl; intuition lia. }
  split; [exact H|].
  exact (increment_decrement_found [] [counterSlice.mkCounter 2 0] 1 0 H).
Defined.

(** Every region that holds an entry splits around it, so the theorem above
    speaks of every entry of every region with unique ids. *)
Lemma region_splits_at_entry (r : counterSlice.State) c :
  c ∈ r -> exists pre post, r = pre ++ c :: post.
Proof. apply list_elem_of_split. Qed.

(** Without the uniqueness of ids the first entry of id [k] is the one that
    moves. *)
Lemma increment_first_match (pre post : counterSlice.State) (k v : Z) :
  Forall (fun c => counterSlice.id c <> k) pre ->
  counterSlice.reducer (pre ++ counterSlice.mkCounter k v :: post)
    (counterSlice.actions.increment (counterSlice.id_payload k))
  = Returns (pre ++ counterSlice.mkCounter k (v + 1) :: post).
Proof. intros Hpre. apply (find_update_hit Z.succ); exact Hpre. Qed.

(** ** counterSlice: ids are preserved (C9) *)

(** C9.  Whatever the action and its payload, when the counters reducer
    returns a region, that region has the ids of the region it started
    from, in the same order, and so the same length. *)
Theorem reducer_preserves_ids (r r' : counterSlice.State) (a : Action.t) :
  counterSlice.reducer r a = Returns r' ->
  counterSlice.id <$> r' = counterSlice.id <$> r
  /\ length r' = length r.
Proof.
  intros H.
  assert (Hids : counterSlice.id <$> r' = counterSlice.id <$> r).
  { unfold counterSlice.reducer in H.
    destruct (String.eqb _ _).
    - eapply case_reducer_ids, H.
    - destruct (String.eqb _ _).
      + eapply case_reducer_ids, H.
      + now injection H as <-. }
  split; [exact Hids|].
  rewrite <- (length_fmap counterSlice.id r'), Hids. apply length_fmap.
Qed.

Lemma reducer_preserves_ids_witness :
  counterSlice.reducer counterSlice.initialState
    (counterSlice.actions.decrement (counterSlice.id_payload 2))
  = Returns [ counterSlice.mkCounter 1 0; counterSlice.mkCounter 2 (-1) ]
  /\ counterSlice.id <$>
       [ counterSlice.mkCounter 1 0; counterSlice.mkCounter 2 (-1) ]
     = counterSlice.id <$> counterSlice.initialState
  /\ length [ counterSlice.mkCounter 1 0; counterSlice.mkCounter 2 (-1) ]
     = length counterSlice.initialState.
Proof.
  assert (H : counterSlice.reducer counterSlice.initialState
                (counterSlice.actions.decrement (counterSlice.id_payload 2))
              = Returns [ counterSlice.mkCounter 1 0;
                          counterSlice.mkCounter 2 (-1) ])
    by reflexivity.
  split; [exact H|].
  exact (reducer_preserves_ids _ _ _ H).
Defined.

(** ** postSlice: the lifecycle case reducers *)

Lemma pending_step (s : postSlice.State) (p e : JsVal) :
  postSlice.reducer s
    (Action.mk (asyncThunk.pending_type postSlice.typePrefix) p e)
  = Returns (postSlice.extraReducers.pending s).
Proof. reflexivity. Qed.

Lemma fulfilled_step (s : postSlice.State) (p e : JsVal) :
  postSlice.reducer s
    (Action.mk (asyncThunk.fulfilled_type postSlice.typePrefix) p e)
  = Returns {| postSlice.posts := p;
               postSlice.isLoading := false;
               postSlice.isError := postSlice.isError s;
               postSlice.error := postSlice.error s |}.
Proof. reflexivity. Qed.

Lemma rejected_step (s : postSlice.State) (err : JsError) :
  postSlice.reducer s (asyncThunk.rejected postSlice.typePrefix err)
  = Returns {| postSlice.posts := postSlice.posts s;
               postSlice.isLoading := false;
               postSlice.isError := true;
               postSlice.error := VStr (Js.message err) |}.
Proof. reflexivity. Qed.

(** The four ways the slice reducer returns. *)
Lemma reducer_returns_inv (s s' : postSlice.State) (a : Action.t) :
  postSlice.reducer s a = Returns s' ->
  s' = postSlice.extraReducers.pending s
  \/ s' = postSlice.extraReducers.fulfilled s a
  \/ (Action.type a = asyncThunk.rejected_type postSlice.typePrefix
      /\ exists msg,
           get_prop (Action.error a) "message" = Returns msg
           /\ s' = {| postSlice.posts := postSlice.posts s;
                      postSlice.isLoading := false;
                      postSlice.isError := true;
                      postSlice.error := msg |})
  \/ s' = s.
Proof.
  unfold postSlice.reducer.
  destruct (String.eqb _ _); [intros [= <-]; now left|].
  destruct (String.eqb _ _); [intros [= <-]; right; now left|].
  destruct (String.eqb _ _) eqn:Hrej; [|intros [= <-]; now repeat right].
  intros H. right. right. left.
  split; [now apply String.eqb_eq|].
  unfold postSlice.extraReducers.rejected in H.
  apply bind_Returns_inv in H as (msg & Hmsg & [= <-]). eauto.
Qed.

(** ** postSlice: fulfilled replaces the items (C2) *)

(** The region a rejected fetch leaves behind, and a non-empty payload. *)
Lemma fulfilled_after_rejected_stays_failed :
  let failed :=
    {| postSlice.posts := VArr []; postSlice.isLoading := false;
       postSlice.isError := true; postSlice.error := VStr "boom" |} in
  let X := VArr [ VObj [ ("id", VNum 1); ("title", VStr "a") ] ] in
  let after :=
    {| postSlice.posts := X; postSlice.isLoading := false;
       postSlice.isError := true; postSlice.error := VStr "boom" |} in
  postSlice.reducer postSlice.initialState
    (asyncThunk.rejected postSlice.typePrefix (mkError "Error" "boom"))
  = Returns failed
  /\ postSlice.reducer failed
       (asyncThunk.fulfilled postSlice.typePrefix X) = Returns after
  /\ postSlice.status_of after = postSlice.Failed
  /\ postSlice.status_of after <> postSlice.IdleOrSucceeded.
Proof.
  cbv zeta.
  split; [reflexivity|]. split; [reflexivity|]. split; [reflexivity|].
  discriminate.
Qed.

(** C2.  From every region, [fulfilled] with payload [p]
    returns a region whose items are [p] itself and whose loading flag is
    down; the error flag and the error message stay as they were.  So the
    region reads as succeeded when the error flag was down before (as it is
    after every [pending]), and still reads as failed when it was up. *)
Theorem fulfilled_replaces_items (s : postSlice.State) (p e : JsVal) :
  let after :=
    {| postSlice.posts := p;
       postSlice.isLoading := false;
       postSlice.isError := postSlice.isError s;
       postSlice.error := postSlice.error s |} in
  postSlice.reducer s
    (Action.mk (asyncThunk.fulfilled_type postSlice.typePrefix) p e)
  = Returns after
  /\ postSlice.status_of after
     = (if postSlice.isError s then postSlice.Failed
        else postSlice.IdleOrSucceeded).
Proof. cbv zeta. split; reflexivity. Qed.

(** ** postSlice: pending, then fulfilled or rejected (C4) *)

(** C4.  From every region [s]: [pending] then [fulfilled] with [X] gives a
    region that reads as succeeded and holds [X]; [pending] then [rejected]
    with the message [m] (for instance "boom") gives a region that reads as
    failed, holds [m] as error message and still holds the items of [s].
    [pending] itself keeps the items and clears the message. *)
Theorem pending_then_settled (s : postSlice.State) (X : JsVal) (err : JsError) :
  let ok_region :=
    {| postSlice.posts := X; postSlice.isLoading := false;
       postSlice.isError := false; postSlice.error := VStr "" |} in
  let ko_region :=
    {| postSlice.posts := postSlice.posts s; postSlice.isLoading := false;
       postSlice.isError := true;
       postSlice.error := VStr (Js.message err) |} in
  postSlice.reduce_all s
    [ asyncThunk.pending postSlice.typePrefix;
      asyncThunk.fulfilled postSlice.typePrefix X ] = Returns ok_region
  /\ postSlice.status_of ok_region = postSlice.IdleOrSucceeded
  /\ postSlice.reduce_all s
       [ asyncThunk.pending postSlice.typePrefix;
         asyncThunk.rejected postSlice.typePrefix err ] = Returns ko_region
  /\ postSlice.status_of ko_region = postSlice.Failed
  /\ postSlice.reducer s (asyncThunk.pending postSlice.typePrefix)
     = Returns {| postSlice.posts := postSlice.posts s;
                  postSlice.isLoading := true;
                  postSlice.isError := false;
                  postSlice.error := VStr "" |}.
Proof. cbv zeta. repeat (split; [reflexivity|]). reflexivity. Qed.

Example pending_then_rejected_boom :
  postSlice.reduce_all postSlice.initialState
    [ asyncThunk.pending postSlice.typePrefix;
      asyncThunk.rejected postSlice.typePrefix (mkError "Error" "boom") ]
  = Returns {| postSlice.posts := VArr []; postSlice.isLoading := false;
               postSlice.isError := true; postSlice.error := VStr "boom" |}.
Proof. reflexivity. Qed.

(** ** postSlice: fulfilled twice (C8) *)

(** C8.  Running the same [fulfilled] action a second time returns the
    region the first run returned. *)
Theorem fulfilled_idempotent (s : postSlice.State) (X e : JsVal) :
  let a := Action.mk (asyncThunk.fulfilled_type postSlice.typePrefix) X e in
  postSlice.reduce_all s [a; a] = postSlice.reduce_all s [a]
  /\ postSlice.reduce_all s [a]
     = Returns {| postSlice.posts := X;
                  postSlice.isLoading := false;
                  postSlice.isError := postSlice.isError s;
                  postSlice.error := postSlice.error s |}.
Proof.
  cbv zeta. unfold postSlice.reduce_all.
  rewrite fulfilled_step. cbn [bind].
  rewrite fulfilled_step. cbn [bind].
  split; reflexivity.
Qed.

(** ** postSlice: the error message and the error flag (C3) *)

(** The flags of a reachable region: never loading and in error at once,
    and a message is only there when the error flag is up. *)
Lemma reachable_flags P (s : postSlice.State) :
  postSlice.reachable_by P s ->
  (postSlice.isLoading s = true -> postSlice.isError s = false)
  /\ (postSlice.error_present s = true -> postSlice.isError s = true).
Proof.
  induction 1 as [|s a s' _ [IHload IHmsg] _ Hstep].
  - split; discriminate.
  - apply reducer_returns_inv in Hstep
      as [-> | [-> | [(_ & msg & _ & ->) | ->]]]; simpl.
    + split; [reflexivity | discriminate].
    + split; [discriminate | exact IHmsg].
    + split; [discriminate | reflexivity].
    + split; assumption.
Qed.

(** When every rejected action carries a message, the error flag is only up
    with a message in the region. *)
Lemma reachable_failed_has_message (s : postSlice.State) :
  postSlice.reachable_by postSlice.rejection_has_message s ->
  postSlice.isError s = true -> postSlice.error_present s = true.
Proof.
  induction 1 as [|s a s' _ IH Ha Hstep].
  - discriminate.
  - apply reducer_returns_inv in Hstep
      as [-> | [-> | [(Hty & msg & Hmsg & ->) | ->]]]; simpl.
    + discriminate.
    + exact IH.
    + intros _. destruct (Ha Hty) as (m & Hm & Hne).
      rewrite Hm in Hmsg. injection Hmsg as <-.
      unfold postSlice.error_present. simpl.
      apply negb_true_iff, String.eqb_neq, Hne.
    + exact IH.
Qed.

Lemma status_failed_iff_flag P (s : postSlice.State) :
  postSlice.reachable_by P s ->
  postSlice.status_of s = postSlice.Failed <-> postSlice.isError s = true.
Proof.
  intros Hreach. destruct (reachable_flags P s Hreach) as [Hload _].
  unfold postSlice.status_of.
  destruct (postSlice.isLoading s), (postSlice.isError s); split;
    try discriminate; try reflexivity.
  intros _. now specialize (Hload eq_refl).
Qed.

(** A rejected action whose error has the empty message leaves a region
    that reads as failed and holds no message. *)
Lemma failed_without_message :
  let s := {| postSlice.posts := VArr []; postSlice.isLoading := false;
              postSlice.isError := true; postSlice.error := VStr "" |} in
  postSlice.reducer postSlice.initialState
    (asyncThunk.rejected postSlice.typePrefix (mkError "Error" ""))
  = Returns s
  /\ postSlice.reachable s
  /\ postSlice.status_of s = postSlice.Failed
  /\ postSlice.error_present s = false.
Proof.
  cbv zeta. split; [reflexivity|]. split; [|split; reflexivity].
  apply (postSlice.reachable_step _ postSlice.initialState
           (asyncThunk.rejected postSlice.typePrefix (mkError "Error" "")));
    [apply postSlice.reachable_init | exact I | reflexivity].
Qed.

(** C3.  In every region reached from the initial one through
    actions whose rejections all carry a non-empty message, the error
    message is present exactly when the region reads as failed. *)
Theorem error_present_iff_failed (s : postSlice.State) :
  postSlice.reachable_by postSlice.rejection_has_message s ->
  postSlice.error_present s = true
  <-> postSlice.status_of s = postSlice.Failed.
Proof.
  intros Hreach.
  rewrite (status_failed_iff_flag _ s Hreach). split.
  - apply (reachable_flags _ s Hreach).
  - now apply reachable_failed_has_message.
Qed.

Lemma error_present_iff_failed_witness :
  let s := {| postSlice.posts := VArr []; postSlice.isLoading := false;
              postSlice.isError := true; postSlice.error := VStr "boom" |} in
  postSlice.reachable_by postSlice.rejection_has_message s
  /\ (postSlice.error_present s = true
      <-> postSlice.status_of s = postSlice.Failed).
Proof.
  cbv zeta.
  assert (H : postSlice.reachable_by postSlice.rejection_has_message
                {| postSlice.posts := VArr []; postSlice.isLoading := false;
                   postSlice.isError := true;
                   postSlice.error := VStr "boom" |}).
  { apply (postSlice.reachable_step _ postSlice.initialState
             (asyncThunk.rejected postSlice.typePrefix
                (mkError "Error" "boom"))).
    - apply postSlice.reachable_init.
    - intros _. exists "boom". split; [reflexivity | discriminate].
    - reflexivity. }
  split; [exact H|].
  exact (error_present_iff_failed _ H).
Defined.

(** Whatever the rejections carry, a message in a reachable region means
    that the region reads as failed. *)
Lemma error_present_implies_failed (s : postSlice.State) :
  postSlice.reachable s ->
  postSlice.error_present s = true ->
  postSlice.status_of s = postSlice.Failed.
Proof.
  intros Hreach Hmsg.
  apply (status_failed_iff_flag _ s Hreach).
  now apply (reachable_flags _ s Hreach).
Qed.

(** A run of actions that returns stays among the reachable regions. *)
Lemma reduce_all_reachable (acts : list Action.t) (s s' : postSlice.State) :
  postSlice.reachable s ->
  postSlice.reduce_all s acts = Returns s' ->
  postSlice.reachable s'.
Proof.
  revert s. induction acts as [|a acts IH]; intros s Hs; simpl.
  - now intros [= <-].
  - intros H. apply bind_Returns_inv in H as (s1 & Hstep & Hrest).
    apply (IH s1); [|exact Hrest].
    now apply (postSlice.reachable_step _ s a).
Qed.

(** ** fetchPosts: what the thunk dispatches (C10) *)

(** C10.  When the fetch settles with a response and the body parses, the
    thunk dispatches [pending] then [fulfilled] with the parsed data,
    whatever the HTTP status is: [ok] is never read.  It ends with a
    [rejected] action exactly when the fetch throws or the parsing throws. *)
Theorem fetchPosts_outcome (fetch : string -> Completion postSlice.Response) :
  (forall response data,
      fetch postSlice.url = Returns response ->
      postSlice.json response = Returns data ->
      postSlice.fetchPosts fetch
      = [ asyncThunk.pending postSlice.typePrefix;
          asyncThunk.fulfilled postSlice.typePrefix data ])
  /\ ((exists e,
         postSlice.fetchPosts fetch
         = [ asyncThunk.pending postSlice.typePrefix;
             asyncThunk.rejected postSlice.typePrefix e ])
      <-> ((exists e, fetch postSlice.url = Throws e)
           \/ (exists response e,
                 fetch postSlice.url = Returns response
                 /\ postSlice.json response = Throws e))).
Proof.
  unfold postSlice.fetchPosts, asyncThunk.dispatched, postSlice.payloadCreator.
  split.
  - intros response data Hfetch Hjson.
    rewrite Hfetch. simpl. now rewrite Hjson.
  - destruct (fetch postSlice.url) as [response|e] eqn:Hfetch; simpl.
    + destruct (postSlice.json response) as [data|e] eqn:Hjson; simpl.
      * split.
        -- intros (e & He). discriminate He.
        -- intros [(e & He) | (r & e & [= <-] & He)]; [discriminate|].
           congruence.
      * split; [|eauto]. intros _. right. eauto.
    + split; [|eauto]. intros _. left. eauto.
Qed.

(** A server error with a JSON body is a fulfilled fetch. *)
Lemma fetchPosts_outcome_witness :
  let response := postSlice.mkResponse 500 (Returns (VObj [])) in
  postSlice.ok response = false
  /\ postSlice.fetchPosts (fun _ => Returns response)
     = [ asyncThunk.pending postSlice.typePrefix;
         asyncThunk.fulfilled postSlice.typePrefix (VObj []) ].
Proof.
  cbv zeta. split; [reflexivity|].
  exact (proj1 (fetchPosts_outcome
                  (fun _ => Returns
                              (postSlice.mkResponse 500 (Returns (VObj [])))))
               _ _ eq_refl eq_refl).
Defined.

(** A body that does not parse is a rejected fetch, also with status 200. *)
Example fetchPosts_bad_body :
  postSlice.fetchPosts
    (fun _ => Returns
                (postSlice.mkResponse 200
                   (Throws (mkError "SyntaxError" "Unexpected token <"))))
  = [ asyncThunk.pending postSlice.typePrefix;
      asyncThunk.rejected postSlice.typePrefix
        (mkError "SyntaxError" "Unexpected token <") ].
Proof. reflexivity. Qed.

(** ** The store: unrecognized actions (C5) *)

Lemma counter_reducer_ignores (r : counterSlice.State) (a : Action.t) :
  Action.type a <> counterSlice.name +:+ "/increment" ->
  Action.type a <> counterSlice.name +:+ "/decrement" ->
  counterSlice.reducer r a = Returns r.
Proof.
  intros Hinc Hdec. unfold counterSlice.reducer.
  apply String.eqb_neq in Hinc, Hdec. now rewrite Hinc, Hdec.
Qed.

Lemma post_reducer_ignores (p : postSlice.State) (a : Action.t) :
  Action.type a <> asyncThunk.pending_type postSlice.typePrefix ->
  Action.type a <> asyncThunk.fulfilled_type postSlice.typePrefix ->
  Action.type a <> asyncThunk.rejected_type postSlice.typePrefix ->
  postSlice.reducer p a = Returns p.
Proof.
  intros Hpen Hful Hrej. unfold postSlice.reducer.
  apply String.eqb_neq in Hpen, Hful, Hrej. now rewrite Hpen, Hful, Hrej.
Qed.

(** C5.  An action whose type no slice reducer has a case for goes through
    both slice reducers and the combined reducer returns the snapshot it
    was given; the store keeps it and nothing is thrown. *)
Theorem unrecognized_is_identity (s : store.RootState) (a : Action.t) :
  ~ In (Action.type a) store.recognized_types ->
  counterSlice.reducer (store.counters s) a = Returns (store.counters s)
  /\ postSlice.reducer (store.posts s) a = Returns (store.posts s)
  /\ store.rootReducer s a = Returns s
  /\ store.dispatch s a = (s, None).
Proof.
  intros Hnot.
  assert (Hc : counterSlice.reducer (store.counters s) a
               = Returns (store.counters s)).
  { apply counter_reducer_ignores; intros E; apply Hnot; rewrite E;
      simpl; tauto. }
  assert (Hp : postSlice.reducer (store.posts s) a
               = Returns (store.posts s)).
  { apply post_reducer_ignores; intros E; apply Hnot; rewrite E;
      simpl; tauto. }
  assert (Hroot : store.rootReducer s a = Returns s).
  { unfold store.rootReducer. rewrite Hc, Hp. simpl. now destruct s. }
  repeat (split; [assumption|]).
  unfold store.dispatch. now rewrite Hroot.
Qed.

Lemma unrecognized_is_identity_witness :
  let a := Action.mk "todos/addTodo" (VStr "milk") VUndefined in
  ~ In (Action.type a) store.recognized_types
  /\ store.dispatch store.initialState a = (store.initialState, None).
Proof.
  cbv zeta.
  assert (H : ~ In (Action.type
                      (Action.mk "todos/addTodo" (VStr "milk") VUndefined))
                   store.recognized_types).
  { simpl. intros [E|[E|[E|[E|[E|[]]]]]]; discriminate E. }
  split; [exact H|].
  exact (proj2 (proj2 (proj2
    (unrecognized_is_identity store.initialState _ H)))).
Defined.

(** ** The store: each action family touches its own region (C7) *)

(** What a dispatch can do to the snapshot, region by region. *)
Lemma dispatch_regions (s : store.RootState) (a : Action.t) :
  (forall r, counterSlice.reducer (store.counters s) a = Returns r ->
             r = store.counters s) ->
  store.counters (fst (store.dispatch s a)) = store.counters s.
Proof.
  intros Hsame. unfold store.dispatch, store.rootReducer.
  destruct (counterSlice.reducer (store.counters s) a) as [r|e]; simpl;
    [|reflexivity].
  destruct (postSlice.reducer (store.posts s) a); simpl; [|reflexivity].
  now apply Hsame.
Qed.

Lemma dispatch_posts (s : store.RootState) (a : Action.t) :
  postSlice.reducer (store.posts s) a = Returns (store.posts s) ->
  store.posts (fst (store.dispatch s a)) = store.posts s.
Proof.
  intros Hsame. unfold store.dispatch, store.rootReducer.
  destruct (counterSlice.reducer (store.counters s) a) as [r|e]; simpl;
    [|reflexivity].
  now rewrite Hsame.
Qed.

(** C7.  A counter action, whatever its payload, leaves the posts region of
    the snapshot as it was; a lifecycle action of [fetchPosts] leaves the
    counters region as it was.  This holds for the snapshot the store holds
    after the dispatch and for every snapshot the combined reducer
    returns. *)
Theorem untargeted_region_untouched (s : store.RootState) (a : Action.t) :
  (In (Action.type a)
      [ counterSlice.name +:+ "/increment";
        counterSlice.name +:+ "/decrement" ] ->
   store.posts (fst (store.dispatch s a)) = store.posts s
   /\ forall s', store.rootReducer s a = Returns s' ->
                 store.posts s' = store.posts s)
  /\ (In (Action.type a)
         [ asyncThunk.pending_type postSlice.typePrefix;
           asyncThunk.fulfilled_type postSlice.typePrefix;
           asyncThunk.rejected_type postSlice.typePrefix ] ->
      store.counters (fst (store.dispatch s a)) = store.counters s
      /\ forall s', store.rootReducer s a = Returns s' ->
                    store.counters s' = store.counters s).
Proof.
  split.
  - intros Hty.
    assert (Hp : postSlice.reducer (store.posts s) a
                 = Returns (store.posts s)).
    { apply post_reducer_ignores; intros E; rewrite E in Hty; simpl in Hty;
        intuition discriminate. }
    split; [now apply dispatch_posts|].
    intros s' H. unfold store.rootReducer in H.
    apply bind_Returns_inv in H as (r & _ & H).
    rewrite Hp in H. simpl in H. now injection H as <-.
  - intros Hty.
    assert (Hc : counterSlice.reducer (store.counters s) a
                 = Returns (store.counters s)).
    { apply counter_reducer_ignores; intros E; rewrite E in Hty;
        simpl in Hty; intuition discriminate. }
    split.
    + apply dispatch_regions. intros r Hr. congruence.
    + intros s' H. unfold store.rootReducer in H.
      rewrite Hc in H. simpl in H.
      apply bind_Returns_inv in H as (p & _ & H). now injection H as <-.
Qed.

Lemma untargeted_region_untouched_witness :
  store.posts
    (fst (store.dispatch store.initialState
            (counterSlice.actions.increment (counterSlice.id_payload 1))))
  = store.posts store.initialState
  /\ store.counters
       (fst (store.dispatch store.initialState
               (asyncThunk.fulfilled postSlice.typePrefix (VArr []))))
     = store.counters store.initialState.
Proof.
  split.
  - refine (proj1 (proj1 (untargeted_region_untouched store.initialState
             (counterSlice.actions.increment (counterSlice.id_payload 1)))
             _)).
    simpl. tauto.
  - refine (proj1 (proj2 (untargeted_region_untouched store.initialState
             (asyncThunk.fulfilled postSlice.typePrefix (VArr [])))
             _)).
    simpl. tauto.
Defined.

(** ** End-to-end runs *)

Example three_increments :
  store.dispatch_all store.initialState
    [ counterSlice.actions.increment (counterSlice.id_payload 1);
      counterSlice.actions.increment (counterSlice.id_payload 1);
      counterSlice.actions.increment (counterSlice.id_payload 1) ]
  = ({| store.counters := [ counterSlice.mkCounter 1 3;
                            counterSlice.mkCounter 2 0 ];
        store.posts := postSlice.initialState |}, None).
Proof. reflexivity. Qed.

Example fetch_succeeds :
  let data := VArr [ VObj [ ("id", VNum 1); ("title", VStr "a") ] ] in
  store.dispatch_all store.initialState
    (postSlice.fetchPosts
       (fun _ => Returns (postSlice.mkResponse 200 (Returns data))))
  = ({| store.counters := counterSlice.initialState;
        store.posts :=
          {| postSlice.posts := data; postSlice.isLoading := false;
             postSlice.isError := false; postSlice.error := VStr "" |} |},
     None).
Proof. reflexivity. Qed.

Example fetch_fails :
  store.dispatch_all store.initialState
    (postSlice.fetchPosts
       (fun _ => Throws (TypeError "network down")))
  = ({| store.counters := counterSlice.initialState;
        store.posts :=
          {| postSlice.posts := VArr []; postSlice.isLoading := false;
             postSlice.isError := true;
             postSlice.error := VStr "network down" |} |},
     None).
Proof. reflexivity. Qed.

(** Two fetches in flight, the first one failing and the second one
    succeeding: the posts arrive and the error flag stays up. *)
Example overlapping_fetches :
  let data := VArr [ VObj [ ("id", VNum 1); ("title", VStr "a") ] ] in
  postSlice.reduce_all postSlice.initialState
    [ asyncThunk.pending postSlice.typePrefix;
      asyncThunk.pending postSlice.typePrefix;
      asyncThunk.rejected postSlice.typePrefix (TypeError "network down");
      asyncThunk.fulfilled postSlice.typePrefix data ]
  = Returns {| postSlice.posts := data; postSlice.isLoading := false;
               postSlice.isError := true;
               postSlice.error := VStr "network down" |}.
Proof. reflexivity. Qed.

(* ================================================================== *)
(** * Further properties of the slices and the components *)

(** ** The case reducers as one pass over the array *)

Lemma strict_eq_num_true (n : Z) (v : JsVal) :
  strict_eq_num n v = true <-> v = VNum n.
Proof.
  destruct v; simpl; try (split; [discriminate | intros [=]]).
  rewrite Z.eqb_eq. split; [now intros -> | now intros [= ->]].
Qed.

Lemma matches_pid (a : Action.t) (c : counterSlice.Counter) (pid : JsVal) :
  get_prop (Action.payload a) "id" = Returns pid ->
  counterSlice.matches a c = Returns (strict_eq_num (counterSlice.id c) pid).
Proof. intros H. unfold counterSlice.matches. now rewrite H. Qed.

Lemma case_reducer_from f (a : Action.t) (pid : JsVal)
      (pre l : counterSlice.State) :
  get_prop (Action.payload a) "id" = Returns pid ->
  bind (findIndex_from (counterSlice.matches a) l (Z.of_nat (length pre)))
       (counterSlice.update_value f (pre ++ l))
  = match counterRuns.update_first f pid l with
    | Some l' => Returns (pre ++ l')
    | None => Throws counterSlice.undefined_value_error
    end.
Proof.
  intros Hpid. revert pre.
  induction l as [|c l IH]; intros pre; simpl.
  - rewrite app_nil_r. apply update_value_miss.
  - rewrite (matches_pid a c pid Hpid). cbn [bind].
    destruct (strict_eq_num (counterSlice.id c) pid).
    + cbn [bind]. rewrite <- (Z.add_0_l (Z.of_nat (length pre))).
      apply update_value_hit.
    + specialize (IH (pre ++ [c])).
      rewrite <- app_assoc, length_app, Nat2Z.inj_add in IH.
      change (Z.of_nat (length [c])) with 1 in IH.
      change ([c] ++ l) with (c :: l) in IH. rewrite IH.
      destruct (counterRuns.update_first f pid l) as [l'|]; simpl;
        [now rewrite <- app_assoc | reflexivity].
Qed.

(** With a payload whose [id] can be read, a case reducer is the pass. *)
Lemma case_reducer_spec f (a : Action.t) (pid : JsVal)
      (r : counterSlice.State) :
  get_prop (Action.payload a) "id" = Returns pid ->
  bind (findIndex (counterSlice.matches a) r) (counterSlice.update_value f r)
  = match counterRuns.update_first f pid r with
    | Some r' => Returns r'
    | None => Throws counterSlice.undefined_value_error
    end.
Proof. intros Hpid. apply (case_reducer_from f a pid [] r Hpid). Qed.

(** With a payload whose [id] cannot be read, the callback throws on the
    first counter; an empty array never calls it. *)
Lemma case_reducer_unreadable f (a : Action.t) (e : JsError)
      (r : counterSlice.State) :
  get_prop (Action.payload a) "id" = Throws e ->
  bind (findIndex (counterSlice.matches a) r) (counterSlice.update_value f r)
  = match r with
    | [] => Throws counterSlice.undefined_value_error
    | _ :: _ => Throws e
    end.
Proof.
  intros Hpid. destruct r as [|c r]; [reflexivity|].
  unfold findIndex. simpl. unfold counterSlice.matches. now rewrite Hpid.
Qed.

Lemma update_first_Some f (pid : JsVal) (r r' : counterSlice.State) :
  counterRuns.update_first f pid r = Some r' ->
  exists c, c ∈ r /\ pid = VNum (counterSlice.id c).
Proof.
  revert r'. induction r as [|c r IH]; intros r'; simpl; [discriminate|].
  destruct (strict_eq_num (counterSlice.id c) pid) eqn:Heq.
  - intros _. exists c. split; [left | now apply strict_eq_num_true].
  - destruct (counterRuns.update_first f pid r) as [r0|]; [|discriminate].
    intros _. destruct (IH r0 eq_refl) as (c0 & Hin & Hpid).
    exists c0. split; [now right | exact Hpid].
Qed.

Lemma update_first_hit f (pid : JsVal) (r : counterSlice.State) c :
  c ∈ r -> pid = VNum (counterSlice.id c) ->
  exists r', counterRuns.update_first f pid r = Some r'.
Proof.
  intros Hin ->. induction Hin as [c r | c c0 r _ IH]; simpl.
  - rewrite Z.eqb_refl. eauto.
  - destruct (Z.eqb _ _); [eauto|].
    destruct IH as (r' & ->). simpl. eauto.
Qed.

Lemma update_first_back f g (pid : JsVal) (r r' : counterSlice.State) :
  (forall v, g (f v) = v) ->
  counterRuns.update_first f pid r = Some r' ->
  counterRuns.update_first g pid r' = Some r.
Proof.
  intros Hgf. revert r'. induction r as [|c r IH]; intros r'; simpl;
    [discriminate|].
  destruct (strict_eq_num (counterSlice.id c) pid) eqn:Heq.
  - intros [= <-]. simpl. rewrite Heq, Hgf. now destruct c.
  - destruct (counterRuns.update_first f pid r) as [r0|]; [|discriminate].
    intros [= <-]. simpl. rewrite Heq. now rewrite (IH r0 eq_refl).
Qed.

Lemma update_first_swap f g (p q : JsVal) (r r1 r2 : counterSlice.State) :
  (forall v, f (g v) = g (f v)) ->
  counterRuns.update_first f p r = Some r1 ->
  counterRuns.update_first g q r1 = Some r2 ->
  exists r1', counterRuns.update_first g q r = Some r1'
              /\ counterRuns.update_first f p r1' = Some r2.
Proof.
  intros Hfg. revert r1 r2.
  induction r as [|c r IH]; intros r1 r2; simpl; [discriminate|].
  destruct (strict_eq_num (counterSlice.id c) p) eqn:Hp.
  - intros [= <-]. simpl.
    destruct (strict_eq_num (counterSlice.id c) q) eqn:Hq.
    + intros [= <-]. eexists. split; [reflexivity|].
      simpl. rewrite Hp. now rewrite Hfg.
    + destruct (counterRuns.update_first g q r) as [r0|]; [|discriminate].
      simpl. intros [= <-]. eexists. split; [reflexivity|].
      simpl. now rewrite Hp.
  - destruct (counterRuns.update_first f p r) as [r0|] eqn:Hf; [|discriminate].
    simpl. intros [= <-]. simpl.
    destruct (strict_eq_num (counterSlice.id c) q) eqn:Hq.
    + intros [= <-]. eexists. split; [reflexivity|].
      simpl. rewrite Hp, Hf. reflexivity.
    + destruct (counterRuns.update_first g q r0) as [r3|] eqn:Hg;
        [|discriminate].
      simpl. intros [= <-].
      destruct (IH r0 r3 eq_refl Hg) as (r1' & Hg' & Hf').
      rewrite Hg'. simpl. eexists. split; [reflexivity|].
      simpl. now rewrite Hp, Hf'.
Qed.

Lemma totalCount_from (l : counterSlice.State) (acc : Z) :
  fold_left (fun total counter => total + counterSlice.value counter) l acc
  = acc + App.totalCount l.
Proof.
  unfold App.totalCount. revert acc.
  induction l as [|c l IH]; intros acc; simpl; [lia|].
  rewrite (IH (acc + counterSlice.value c)), (IH (0 + counterSlice.value c)).
  lia.
Qed.

Lemma totalCount_cons c (l : counterSlice.State) :
  App.totalCount (c :: l) = counterSlice.value c + App.totalCount l.
Proof. unfold App.totalCount at 1. simpl. now rewrite totalCount_from. Qed.

Lemma update_first_total f (d : Z) (pid : JsVal) (r r' : counterSlice.State) :
  (forall v, f v = v + d) ->
  counterRuns.update_first f pid r = Some r' ->
  App.totalCount r' = App.totalCount r + d.
Proof.
  intros Hf. revert r'. induction r as [|c r IH]; intros r'; simpl;
    [discriminate|].
  destruct (strict_eq_num (counterSlice.id c) pid).
  - intros [= <-]. rewrite !totalCount_cons. simpl. rewrite Hf. lia.
  - destruct (counterRuns.update_first f pid r) as [r0|]; [|discriminate].
    intros [= <-]. rewrite !totalCount_cons, (IH r0 eq_refl). lia.
Qed.

(** The three shapes of the counters reducer on a given action: it passes
    the region through, it is the pass with [value++] or [value--], or it
    throws on every region. *)
Lemma reducer_shape (a : Action.t) :
  (forall r, counterSlice.reducer r a = Returns r)
  \/ (exists f pid,
        counterRuns.is_step f
        /\ forall r, counterSlice.reducer r a
                     = match counterRuns.update_first f pid r with
                       | Some r' => Returns r'
                       | None => Throws counterSlice.undefined_value_error
                       end)
  \/ (forall r, exists e, counterSlice.reducer r a = Throws e).
Proof.
  unfold counterSlice.reducer, counterSlice.reducers.increment,
    counterSlice.reducers.decrement.
  destruct (get_prop (Action.payload a) "id") as [pid|e] eqn:Hpid.
  - destruct (String.eqb _ _).
    + right. left. exists Z.succ, pid. split; [now left|].
      intros r. now apply case_reducer_spec.
    + destruct (String.eqb _ _).
      * right. left. exists Z.pred, pid. split; [now right|].
        intros r. now apply case_reducer_spec.
      * now left.
  - destruct (String.eqb _ _).
    + right. right. intros r.
      rewrite (case_reducer_unreadable _ a e r Hpid). destruct r; eauto.
    + destruct (String.eqb _ _).
      * right. right. intros r.
        rewrite (case_reducer_unreadable _ a e r Hpid). destruct r; eauto.
      * now left.
Qed.

Lemma steps_commute f g : counterRuns.is_step f -> counterRuns.is_step g -> forall v, f (g v) = g (f v).
Proof. intros [-> | ->] [-> | ->] v; lia. Qed.

Lemma case_reducer_returns_iff f (a : Action.t) (r : counterSlice.State) :
  (exists r', bind (findIndex (counterSlice.matches a) r)
                   (counterSlice.update_value f r) = Returns r')
  <-> (exists c, c ∈ r
                 /\ get_prop (Action.payload a) "id"
                    = Returns (VNum (counterSlice.id c))).
Proof.
  destruct (get_prop (Action.payload a) "id") as [pid|e] eqn:Hpid.
  - rewrite (case_reducer_spec f a pid r Hpid).
    destruct (counterRuns.update_first f pid r) as [r'|] eqn:Hup.
    + split; [|eauto]. intros _.
      destruct (update_first_Some f pid r r' Hup) as (c & Hin & ->). eauto.
    + split; [intros (r' & [=])|].
      intros (c & Hin & [= ->]).
      destruct (update_first_hit f _ r c Hin eq_refl) as (r' & Hr').
      congruence.
  - rewrite (case_reducer_unreadable f a e r Hpid). split.
    + intros (r' & H). destruct r; discriminate H.
    + intros (c & _ & [=]).
Qed.

(** ** counterSlice: when a counter action returns *)

(** X1.  [increment(p)] returns a region exactly when [p.id] can be read and
    is, as a number, the id of some counter of the region; the same holds
    of [decrement(p)].  In every other case the case reducer throws. *)
Theorem counter_action_returns_iff_hit (r : counterSlice.State) (p : JsVal) :
  ((exists r', counterSlice.reducer r (counterSlice.actions.increment p)
               = Returns r')
   <-> (exists c, c ∈ r
                  /\ get_prop p "id" = Returns (VNum (counterSlice.id c))))
  /\ ((exists r', counterSlice.reducer r (counterSlice.actions.decrement p)
                  = Returns r')
      <-> (exists c, c ∈ r
                     /\ get_prop p "id" = Returns (VNum (counterSlice.id c)))).
Proof.
  split.
  - apply (case_reducer_returns_iff Z.succ
             (counterSlice.actions.increment p) r).
  - apply (case_reducer_returns_iff Z.pred
             (counterSlice.actions.decrement p) r).
Qed.

(** An id given as a string is not strictly equal to a numeric id. *)
Example string_id_misses :
  counterSlice.reducer counterSlice.initialState
    (counterSlice.actions.increment (VObj [ ("id", VStr "1") ]))
  = Throws counterSlice.undefined_value_error.
Proof. reflexivity. Qed.

(** X2.  An action creator called without an argument makes an action with
    an [undefined] payload.  On a region with a counter the callback of
    [findIndex] throws on reading [id]; on the empty region the callback
    never runs and the read of [value] throws. *)
Theorem counter_action_without_payload (r : counterSlice.State) :
  let id_error :=
    TypeError "Cannot read properties of undefined (reading 'id')" in
  let thrown :=
    match r with
    | [] => counterSlice.undefined_value_error
    | _ :: _ => id_error
    end in
  counterSlice.reducer r (counterSlice.actions.increment VUndefined)
  = Throws thrown
  /\ counterSlice.reducer r (counterSlice.actions.decrement VUndefined)
     = Throws thrown.
Proof.
  cbv zeta. split.
  - change (counterSlice.reducer r (counterSlice.actions.increment VUndefined))
      with (bind (findIndex (counterSlice.matches
                               (counterSlice.actions.increment VUndefined)) r)
                 (counterSlice.update_value Z.succ r)).
    rewrite (case_reducer_unreadable Z.succ
               (counterSlice.actions.increment VUndefined)
               (TypeError "Cannot read properties of undefined (reading 'id')")
               r eq_refl).
    now destruct r.
  - change (counterSlice.reducer r (counterSlice.actions.decrement VUndefined))
      with (bind (findIndex (counterSlice.matches
                               (counterSlice.actions.decrement VUndefined)) r)
                 (counterSlice.update_value Z.pred r)).
    rewrite (case_reducer_unreadable Z.pred
               (counterSlice.actions.decrement VUndefined)
               (TypeError "Cannot read properties of undefined (reading 'id')")
               r eq_refl).
    now destruct r.
Qed.

(** ** counterSlice: increment and decrement undo each other *)

Lemma case_reducer_back f g (a b : Action.t) (r r' : counterSlice.State) :
  Action.payload a = Action.payload b ->
  (forall v, g (f v) = v) ->
  bind (findIndex (counterSlice.matches a) r)
       (counterSlice.update_value f r) = Returns r' ->
  bind (findIndex (counterSlice.matches b) r')
       (counterSlice.update_value g r') = Returns r.
Proof.
  intros Hpayload Hgf H.
  destruct (get_prop (Action.payload a) "id") as [pid|e] eqn:Hpid.
  - rewrite (case_reducer_spec f a pid r Hpid) in H.
    destruct (counterRuns.update_first f pid r) as [r0|] eqn:Hup;
      [|discriminate].
    injection H as <-.
    rewrite Hpayload in Hpid. rewrite (case_reducer_spec g b pid r0 Hpid).
    now rewrite (update_first_back f g pid r r0 Hgf Hup).
  - rewrite (case_reducer_unreadable f a e r Hpid) in H.
    destruct r; discriminate H.
Qed.

(** X3.  [increment(p)] takes [r] to [r'] exactly when [decrement(p)] takes
    [r'] back to [r]: each of the two undoes the other, for every payload
    and every region, whether or not the ids are unique. *)
Theorem increment_decrement_inverse (r r' : counterSlice.State) (p : JsVal) :
  counterSlice.reducer r (counterSlice.actions.increment p) = Returns r'
  <-> counterSlice.reducer r' (counterSlice.actions.decrement p) = Returns r.
Proof.
  split.
  - apply (case_reducer_back Z.succ Z.pred
             (counterSlice.actions.increment p)
             (counterSlice.actions.decrement p) r r' eq_refl).
    intros v. lia.
  - apply (case_reducer_back Z.pred Z.succ
             (counterSlice.actions.decrement p)
             (counterSlice.actions.increment p) r' r eq_refl).
    intros v. lia.
Qed.

(** ** counterSlice: two actions in either order *)

(** X4.  When two actions run one after the other and both return, they
    return in the other order as well, with the same final region. *)
Theorem counter_actions_commute (r r2 : counterSlice.State) (a b : Action.t) :
  counterRuns.reduce_all r [a; b] = Returns r2 ->
  counterRuns.reduce_all r [b; a] = Returns r2.
Proof.
  simpl. intros H.
  apply bind_Returns_inv in H as (r1 & Ha & H).
  apply bind_Returns_inv in H as (r2' & Hb & [= ->]).
  destruct (reducer_shape a) as [Ia | [(f & p & Hf & Pa) | Ta]].
  - rewrite Ia in Ha. injection Ha as <-.
    rewrite Hb. simpl. now rewrite Ia.
  - rewrite Pa in Ha.
    destruct (counterRuns.update_first f p r) as [r1'|] eqn:Hfa;
      [|discriminate]. injection Ha as ->.
    destruct (reducer_shape b) as [Ib | [(g & q & Hg & Pb) | Tb]].
    + rewrite Ib in Hb. injection Hb as <-.
      rewrite Ib. simpl. now rewrite Pa, Hfa.
    + rewrite Pb in Hb.
      destruct (counterRuns.update_first g q r1) as [r2'|] eqn:Hgb;
        [|discriminate]. injection Hb as ->.
      destruct (update_first_swap f g p q r r1 r2
                  (steps_commute f g Hf Hg) Hfa Hgb) as (r1' & Hg' & Hf').
      rewrite Pb, Hg'. simpl. now rewrite Pa, Hf'.
    + destruct (Tb r1) as (e & He). congruence.
  - destruct (Ta r) as (e & He). congruence.
Qed.

Lemma counter_actions_commute_witness :
  let a := counterSlice.actions.increment (counterSlice.id_payload 1) in
  let b := counterSlice.actions.decrement (counterSlice.id_payload 2) in
  let r2 := [ counterSlice.mkCounter 1 1; counterSlice.mkCounter 2 (-1) ] in
  counterRuns.reduce_all counterSlice.initialState [a; b] = Returns r2
  /\ counterRuns.reduce_all counterSlice.initialState [b; a] = Returns r2.
Proof.
  cbv zeta. split; [reflexivity|].
  exact (counter_actions_commute counterSlice.initialState
           [ counterSlice.mkCounter 1 1; counterSlice.mkCounter 2 (-1) ]
           (counterSlice.actions.increment (counterSlice.id_payload 1))
           (counterSlice.actions.decrement (counterSlice.id_payload 2))
           eq_refl).
Defined.

(** ** App: the total count *)

(** X5.  An action the counters reducer returns on moves the total count
    by exactly one up when it is an increment, by exactly one down when it
    is a decrement, and leaves it alone otherwise. *)
Theorem total_moves_by_one (r r' : counterSlice.State) (a : Action.t) :
  counterSlice.reducer r a = Returns r' ->
  App.totalCount r'
  = App.totalCount r
    + (if String.eqb (Action.type a) (counterSlice.name +:+ "/increment")
       then 1
       else if String.eqb (Action.type a) (counterSlice.name +:+ "/decrement")
       then -1
       else 0).
Proof.
  unfold counterSlice.reducer, counterSlice.reducers.increment,
    counterSlice.reducers.decrement.
  assert (Hpass : forall f d,
             (forall v, f v = v + d) ->
             bind (findIndex (counterSlice.matches a) r)
                  (counterSlice.update_value f r) = Returns r' ->
             App.totalCount r' = App.totalCount r + d).
  { intros f d Hf H.
    destruct (get_prop (Action.payload a) "id") as [pid|e] eqn:Hpid.
    - rewrite (case_reducer_spec f a pid r Hpid) in H.
      destruct (counterRuns.update_first f pid r) as [r0|] eqn:Hup;
        [|discriminate]. injection H as <-.
      exact (update_first_total f d pid r r0 Hf Hup).
    - rewrite (case_reducer_unreadable f a e r Hpid) in H.
      destruct r; discriminate H. }
  destruct (String.eqb _ _).
  - apply Hpass. intros v. lia.
  - destruct (String.eqb _ _).
    + apply Hpass. intros v. lia.
    + intros [= <-]. lia.
Qed.

Lemma total_moves_by_one_witness :
  counterSlice.reducer counterSlice.initialState
    (counterSlice.actions.decrement (counterSlice.id_payload 2))
  = Returns [ counterSlice.mkCounter 1 0; counterSlice.mkCounter 2 (-1) ]
  /\ App.totalCount [ counterSlice.mkCounter 1 0;
                      counterSlice.mkCounter 2 (-1) ]
     = App.totalCount counterSlice.initialState + -1.
Proof.
  split; [reflexivity|].
  exact (total_moves_by_one counterSlice.initialState
           [ counterSlice.mkCounter 1 0; counterSlice.mkCounter 2 (-1) ]
           (counterSlice.actions.decrement (counterSlice.id_payload 2))
           eq_refl).
Defined.

(** ** App and Counter: clicks on the buttons on screen *)

Lemma click_increment (s : store.RootState) (i : nat) c :
  store.counters s !! i = Some c ->
  App.click s i "Increment (+)"
  = Some (App.handleIncrement (counterSlice.id c) s).
Proof.
  intros H. unfold App.click, App.counter_views.
  rewrite list_lookup_fmap, H. reflexivity.
Qed.

Lemma click_decrement (s : store.RootState) (i : nat) c :
  store.counters s !! i = Some c ->
  App.click s i "Decrement (-)"
  = Some (App.handleDecrement (counterSlice.id c) s).
Proof.
  intros H. unfold App.click, App.counter_views.
  rewrite list_lookup_fmap, H. reflexivity.
Qed.

(** A dispatch of a counter action whose pass over the array succeeds. *)
Lemma dispatch_pass f (a : Action.t) (k : Z) (s : store.RootState) r' :
  counterSlice.reducer (store.counters s) a
  = bind (findIndex (counterSlice.matches a) (store.counters s))
         (counterSlice.update_value f (store.counters s)) ->
  postSlice.reducer (store.posts s) a = Returns (store.posts s) ->
  get_prop (Action.payload a) "id" = Returns (VNum k) ->
  counterRuns.update_first f (VNum k) (store.counters s) = Some r' ->
  store.dispatch s a
  = ({| store.counters := r'; store.posts := store.posts s |}, None).
Proof.
  intros Hred Hposts Hpid Hup.
  unfold store.dispatch, store.rootReducer.
  rewrite Hred, (case_reducer_spec f a (VNum k) _ Hpid), Hup. simpl.
  now rewrite Hposts.
Qed.

Lemma handleIncrement_pass (k : Z) (s : store.RootState) r' :
  counterRuns.update_first Z.succ (VNum k) (store.counters s) = Some r' ->
  App.handleIncrement k s
  = ({| store.counters := r'; store.posts := store.posts s |}, None).
Proof.
  intros Hup. unfold App.handleIncrement.
  now apply (dispatch_pass Z.succ _ k s r').
Qed.

Lemma handleDecrement_pass (k : Z) (s : store.RootState) r' :
  counterRuns.update_first Z.pred (VNum k) (store.counters s) = Some r' ->
  App.handleDecrement k s
  = ({| store.counters := r'; store.posts := store.posts s |}, None).
Proof.
  intros Hup. unfold App.handleDecrement.
  now apply (dispatch_pass Z.pred _ k s r').
Qed.

Lemma update_first_ids f (pid : JsVal) (r r' : counterSlice.State) :
  counterRuns.update_first f pid r = Some r' ->
  counterSlice.id <$> r' = counterSlice.id <$> r.
Proof.
  revert r'. induction r as [|c r IH]; intros r'; simpl; [discriminate|].
  destruct (strict_eq_num (counterSlice.id c) pid).
  - now intros [= <-].
  - destruct (counterRuns.update_first f pid r) as [r0|]; [|discriminate].
    intros [= <-]. rewrite !fmap_cons. f_equal. now apply IH.
Qed.

(** X6.  Every button App puts on screen dispatches an action that the
    store accepts: a click on [Increment (+)] or [Decrement (-)] of the
    [i]-th Counter throws nothing, moves the total count by one, keeps the
    ids of the counters and leaves the posts region alone. *)
Theorem click_never_faults (s : store.RootState) (i : nat) c :
  store.counters s !! i = Some c ->
  exists up down,
    App.click s i "Increment (+)" = Some (up, None)
    /\ App.totalCount (store.counters up)
       = App.totalCount (store.counters s) + 1
    /\ counterSlice.id <$> store.counters up
       = counterSlice.id <$> store.counters s
    /\ store.posts up = store.posts s
    /\ App.click s i "Decrement (-)" = Some (down, None)
    /\ App.totalCount (store.counters down)
       = App.totalCount (store.counters s) - 1
    /\ counterSlice.id <$> store.counters down
       = counterSlice.id <$> store.counters s
    /\ store.posts down = store.posts s.
Proof.
  intros Hc.
  assert (Hin : c ∈ store.counters s) by (eapply list_elem_of_lookup_2, Hc).
  destruct (update_first_hit Z.succ (VNum (counterSlice.id c))
              (store.counters s) c Hin eq_refl) as (ru & Hu).
  destruct (update_first_hit Z.pred (VNum (counterSlice.id c))
              (store.counters s) c Hin eq_refl) as (rd & Hd).
  exists {| store.counters := ru; store.posts := store.posts s |},
         {| store.counters := rd; store.posts := store.posts s |}.
  simpl.
  split; [now rewrite (click_increment s i c Hc),
                      (handleIncrement_pass _ s ru Hu)|].
  split; [apply (update_first_total Z.succ 1 _ _ _ (fun v => eq_refl) Hu)|].
  split; [apply (update_first_ids _ _ _ _ Hu)|].
  split; [reflexivity|].
  split; [now rewrite (click_decrement s i c Hc),
                      (handleDecrement_pass _ s rd Hd)|].
  split; [apply (update_first_total Z.pred (-1) _ _ _ (fun v => eq_refl) Hd)|].
  split; [apply (update_first_ids _ _ _ _ Hd)|].
  reflexivity.
Qed.

Lemma click_never_faults_witness :
  store.counters store.initialState !! 1%nat
  = Some (counterSlice.mkCounter 2 0)
  /\ exists up down,
       App.click store.initialState 1 "Increment (+)" = Some (up, None)
       /\ App.totalCount (store.counters up)
          = App.totalCount (store.counters store.initialState) + 1
       /\ counterSlice.id <$> store.counters up
          = counterSlice.id <$> store.counters store.initialState
       /\ store.posts up = store.posts store.initialState
       /\ App.click store.initialState 1 "Decrement (-)" = Some (down, None)
       /\ App.totalCount (store.counters down)
          = App.totalCount (store.counters store.initialState) - 1
       /\ counterSlice.id <$> store.counters down
          = counterSlice.id <$> store.counters store.initialState
       /\ store.posts down = store.posts store.initialState.
Proof.
  split; [reflexivity|].
  exact (click_never_faults store.initialState 1
           (counterSlice.mkCounter 2 0) eq_refl).
Defined.

Lemma update_first_at f (r : counterSlice.State) (i : nat) c :
  NoDup (counterSlice.id <$> r) ->
  r !! i = Some c ->
  counterRuns.update_first f (VNum (counterSlice.id c)) r
  = Some (<[i := {| counterSlice.id := counterSlice.id c;
                    counterSlice.value := f (counterSlice.value c) |}]> r).
Proof.
  revert i. induction r as [|c0 r IH]; intros i Hnd Hi; [discriminate|].
  rewrite fmap_cons in Hnd. apply NoDup_cons in Hnd as [Hfresh Hnd].
  destruct i as [|i]; simpl in *.
  - injection Hi as ->. now rewrite Z.eqb_refl.
  - destruct (Z.eqb_spec (counterSlice.id c0) (counterSlice.id c)) as [E|_].
    + exfalso. apply Hfresh. rewrite E.
      apply list_elem_of_fmap_2. eapply list_elem_of_lookup_2, Hi.
    + now rewrite (IH i Hnd Hi).
Qed.

(** X7.  With unique ids, a click on a button of the [i]-th Counter changes
    the [i]-th counter and no other: its value goes up by one for
    [Increment (+)], down by one for [Decrement (-)]. *)
Theorem click_changes_own_counter (s : store.RootState) (i : nat) c :
  NoDup (counterSlice.id <$> store.counters s) ->
  store.counters s !! i = Some c ->
  App.click s i "Increment (+)"
  = Some ({| store.counters :=
               <[i := counterSlice.mkCounter (counterSlice.id c)
                        (counterSlice.value c + 1)]> (store.counters s);
             store.posts := store.posts s |}, None)
  /\ App.click s i "Decrement (-)"
     = Some ({| store.counters :=
                  <[i := counterSlice.mkCounter (counterSlice.id c)
                           (counterSlice.value c - 1)]> (store.counters s);
                store.posts := store.posts s |}, None).
Proof.
  intros Hnd Hc. split.
  - rewrite (click_increment s i c Hc).
    now rewrite (handleIncrement_pass _ s _
                   (update_first_at Z.succ _ i c Hnd Hc)).
  - rewrite (click_decrement s i c Hc).
    now rewrite (handleDecrement_pass _ s _
                   (update_first_at Z.pred _ i c Hnd Hc)).
Qed.

Lemma click_changes_own_counter_witness :
  NoDup (counterSlice.id <$> store.counters store.initialState)
  /\ store.counters store.initialState !! 1%nat
     = Some (counterSlice.mkCounter 2 0)
  /\ App.click store.initialState 1 "Decrement (-)"
     = Some ({| store.counters :=
                  [ counterSlice.mkCounter 1 0;
                    counterSlice.mkCounter 2 (-1) ];
                store.posts := postSlice.initialState |}, None).
Proof.
  assert (H : NoDup (counterSlice.id <$> store.counters store.initialState)).
  { simpl. repeat constructor; rewrite ?list_elem_of_In; simpl; intuition lia. }
  split; [exact H|]. split; [reflexivity|].
  exact (proj2 (click_changes_own_counter store.initialState 1
                  (counterSlice.mkCounter 2 0) H eq_refl)).
Defined.

(** ** counterSlice: the same increment many times *)

(** X8.  [n] increments of the id [k] in a row add [n] to the value of the
    first counter of id [k] and change nothing else. *)
Theorem repeated_increments (n : nat) (pre post : counterSlice.State)
        (k v : Z) :
  Forall (fun c => counterSlice.id c <> k) pre ->
  counterRuns.reduce_all (pre ++ counterSlice.mkCounter k v :: post)
    (repeat (counterSlice.actions.increment (counterSlice.id_payload k)) n)
  = Returns (pre ++ counterSlice.mkCounter k (v + Z.of_nat n) :: post).
Proof.
  intros Hpre. revert v.
  induction n as [|n IH]; intros v.
  - simpl. now rewrite Z.add_0_r.
  - cbn [repeat counterRuns.reduce_all].
    change (counterSlice.reducer
              (pre ++ counterSlice.mkCounter k v :: post)
              (counterSlice.actions.increment (counterSlice.id_payload k)))
      with (bind (findIndex
                    (counterSlice.matches
                       (Action.mk (counterSlice.name +:+ "/increment")
                                  (counterSlice.id_payload k) VUndefined))
                    (pre ++ counterSlice.mkCounter k v :: post))
                 (counterSlice.update_value Z.succ
                    (pre ++ counterSlice.mkCounter k v :: post))).
    rewrite (find_update_hit Z.succ _ _ pre post k v Hpre). cbn [bind].
    rewrite IH.
    now replace (Z.succ v + Z.of_nat n) with (v + Z.of_nat (S n)) by lia.
Qed.

Lemma repeated_increments_witness :
  Forall (fun c => counterSlice.id c <> 2) [ counterSlice.mkCounter 1 0 ]
  /\ counterRuns.reduce_all counterSlice.initialState
       (repeat (counterSlice.actions.increment (counterSlice.id_payload 2)) 5)
     = Returns [ counterSlice.mkCounter 1 0; counterSlice.mkCounter 2 5 ].
Proof.
  assert (H : Forall (fun c => counterSlice.id c <> 2)
                     [ counterSlice.mkCounter 1 0 ])
    by (repeat constructor; simpl; lia).
  split; [exact H|].
  exact (repeated_increments 5 [ counterSlice.mkCounter 1 0 ] [] 2 0 H).
Defined.

(** ** postSlice: when the reducer throws *)

(** The three lifecycle types are distinct strings. *)
Lemma lifecycle_cases (a : Action.t) :
  (history.is_pending a = true /\ history.is_fulfilled a = false
   /\ history.is_rejected a = false)
  \/ (history.is_pending a = false /\ history.is_fulfilled a = true
      /\ history.is_rejected a = false)
  \/ (history.is_pending a = false /\ history.is_fulfilled a = false
      /\ history.is_rejected a = true)
  \/ (history.is_pending a = false /\ history.is_fulfilled a = false
      /\ history.is_rejected a = false).
Proof.
  unfold history.is_pending, history.is_fulfilled, history.is_rejected.
  destruct (String.eqb_spec (Action.type a)
              (asyncThunk.pending_type postSlice.typePrefix)) as [E|_].
  { left. rewrite E. repeat split; reflexivity. }
  destruct (String.eqb_spec (Action.type a)
              (asyncThunk.fulfilled_type postSlice.typePrefix)) as [E|_].
  { right. left. rewrite E. repeat split; reflexivity. }
  destruct (String.eqb (Action.type a)
              (asyncThunk.rejected_type postSlice.typePrefix)).
  - right. right. left. repeat split; reflexivity.
  - repeat right. repeat split; reflexivity.
Qed.

(** Case analysis on the kind of [a], with the three tests rewritten. *)
Ltac by_kind a :=
  let Hp := fresh "Hp" in
  let Hf := fresh "Hf" in
  let Hr := fresh "Hr" in
  destruct (lifecycle_cases a)
    as [(Hp & Hf & Hr) | [(Hp & Hf & Hr) | [(Hp & Hf & Hr) | (Hp & Hf & Hr)]]];
  rewrite ?Hp, ?Hf, ?Hr.

(** The slice reducer, read through the kind of the action. *)
Lemma post_reducer_by_kind (s : postSlice.State) (a : Action.t) :
  postSlice.reducer s a
  = if history.is_pending a then Returns (postSlice.extraReducers.pending s)
    else if history.is_fulfilled a
    then Returns (postSlice.extraReducers.fulfilled s a)
    else if history.is_rejected a
    then postSlice.extraReducers.rejected s a
    else Returns s.
Proof. reflexivity. Qed.

(** X9.  The posts reducer throws exactly on a rejected action whose
    [error] is [undefined] or [null]; every other action, of any type and
    with any payload, returns a region. *)
Theorem post_reducer_throws_iff (s : postSlice.State) (a : Action.t) :
  (exists e, postSlice.reducer s a = Throws e)
  <-> history.is_rejected a = true
      /\ (Action.error a = VUndefined \/ Action.error a = VNull).
Proof.
  rewrite post_reducer_by_kind.
  by_kind a.
  - split; [intros (e & [=]) | intros ([=] & _)].
  - split; [intros (e & [=]) | intros ([=] & _)].
  - unfold postSlice.extraReducers.rejected.
    destruct (Action.error a); simpl; split;
      try (intros (e & [=])); try (intros (_ & [[=] | [=]])); eauto.
  - split; [intros (e & [=]) | intros ([=] & _)].
Qed.

(** ** Posts: the mount effect *)

(** X10.  Whatever the snapshot and whatever the network does, the thunk
    the Posts component dispatches on mount runs to its end without an
    exception and leaves the counters alone.  The posts region ends not
    loading: with the fetched data, no error flag and the empty message
    when the payload creator returned; with the items it had, the error
    flag up and the message of the thrown error when it threw. *)
Theorem mount_settles (s : store.RootState)
        (fetch : string -> Completion postSlice.Response) :
  Posts.mount s fetch
  = ({| store.counters := store.counters s;
        store.posts :=
          match postSlice.payloadCreator fetch with
          | Returns data =>
              {| postSlice.posts := data;
                 postSlice.isLoading := false;
                 postSlice.isError := false;
                 postSlice.error := VStr "" |}
          | Throws e =>
              {| postSlice.posts := postSlice.posts (store.posts s);
                 postSlice.isLoading := false;
                 postSlice.isError := true;
                 postSlice.error := VStr (Js.message e) |}
          end |}, None).
Proof.
  unfold Posts.mount, postSlice.fetchPosts, asyncThunk.dispatched.
  destruct (postSlice.payloadCreator fetch); reflexivity.
Qed.

(** ** postSlice: the region as a function of the last actions *)

Lemma post_step_fields (s s' : postSlice.State) (a : Action.t) :
  postSlice.reducer s a = Returns s' ->
  postSlice.posts s'
  = (if history.is_fulfilled a then Action.payload a else postSlice.posts s)
  /\ postSlice.isLoading s'
     = (if history.is_pending a then true
        else if history.is_fulfilled a || history.is_rejected a then false
        else postSlice.isLoading s)
  /\ postSlice.isError s'
     = (if history.is_pending a then false
        else if history.is_rejected a then true
        else postSlice.isError s).
Proof.
  rewrite post_reducer_by_kind.
  by_kind a.
  - intros [= <-]. repeat split; reflexivity.
  - intros [= <-]. repeat split; reflexivity.
  - intros H. unfold postSlice.extraReducers.rejected in H.
    apply bind_Returns_inv in H as (msg & _ & [= <-]).
    repeat split; reflexivity.
  - intros [= <-]. repeat split; reflexivity.
Qed.

(** X11.  After any run of actions that returns, the items are the payload
    of the last fulfilled action, the region is loading exactly when the
    last lifecycle action is a pending one, and the error flag is up
    exactly when the last action among the pending and rejected ones is a
    rejected one.  With no such action in the run the field is the one the
    run started from. *)
Theorem region_reads_last_actions (s0 s : postSlice.State)
        (acts : list Action.t) :
  postSlice.reduce_all s0 acts = Returns s ->
  postSlice.posts s
  = match history.last_where history.is_fulfilled acts with
    | Some a => Action.payload a
    | None => postSlice.posts s0
    end
  /\ postSlice.isLoading s
     = match history.last_where
               (fun a => history.is_pending a || history.is_fulfilled a
                         || history.is_rejected a) acts with
       | Some a => history.is_pending a
       | None => postSlice.isLoading s0
       end
  /\ postSlice.isError s
     = match history.last_where
               (fun a => history.is_pending a || history.is_rejected a)
               acts with
       | Some a => history.is_rejected a
       | None => postSlice.isError s0
       end.
Proof.
  revert s0. induction acts as [|a acts IH]; intros s0; simpl.
  - intros [= <-]. repeat split; reflexivity.
  - intros H. apply bind_Returns_inv in H as (s1 & Hstep & Hrest).
    destruct (IH s1 Hrest) as (Hposts & Hload & Herr).
    destruct (post_step_fields s0 s1 a Hstep) as (Hp1 & Hl1 & He1).
    rewrite Hposts, Hload, Herr, Hp1, Hl1, He1. clear.
    split; [|split].
    + destruct (history.last_where history.is_fulfilled acts); [reflexivity|].
      now destruct (history.is_fulfilled a).
    + destruct (history.last_where _ acts); [reflexivity|].
      by_kind a; simpl; congruence.
    + destruct (history.last_where _ acts); [reflexivity|].
      by_kind a; simpl; congruence.
Qed.

Lemma region_reads_last_actions_witness :
  let data := VArr [ VObj [ ("id", VNum 1); ("title", VStr "a") ] ] in
  let acts :=
    [ asyncThunk.pending postSlice.typePrefix;
      asyncThunk.pending postSlice.typePrefix;
      asyncThunk.rejected postSlice.typePrefix (TypeError "network down");
      asyncThunk.fulfilled postSlice.typePrefix data ] in
  let s := {| postSlice.posts := data; postSlice.isLoading := false;
              postSlice.isError := true;
              postSlice.error := VStr "network down" |} in
  postSlice.reduce_all postSlice.initialState acts = Returns s
  /\ postSlice.posts s = data
  /\ postSlice.isLoading s = false
  /\ postSlice.isError s = true.
Proof.
  cbv zeta. split; [reflexivity|].
  exact (region_reads_last_actions postSlice.initialState
           {| postSlice.posts :=
                VArr [ VObj [ ("id", VNum 1); ("title", VStr "a") ] ];
              postSlice.isLoading := false;
              postSlice.isError := true;
              postSlice.error := VStr "network down" |}
           [ asyncThunk.pending postSlice.typePrefix;
             asyncThunk.pending postSlice.typePrefix;
             asyncThunk.rejected postSlice.typePrefix
               (TypeError "network down");
             asyncThunk.fulfilled postSlice.typePrefix
               (VArr [ VObj [ ("id", VNum 1); ("title", VStr "a") ] ]) ]
           eq_refl).
Defined.

(** ** Posts: what the component function returns *)

Lemma item_returns_iff (post : JsVal) :
  (exists kt, Posts.item post = Returns kt)
  <-> post <> VUndefined /\ post <> VNull.
Proof.
  unfold Posts.item.
  destruct post; simpl; split;
    try (intros (kt & [=])); try (intros [H1 H2]; congruence);
    try (intros _; split; discriminate); eauto.
Qed.

Lemma mapM_item_returns_iff (elems : list JsVal) :
  (exists lis, Posts.mapM Posts.item elems = Returns lis)
  <-> Forall (fun post => post <> VUndefined /\ post <> VNull) elems.
Proof.
  induction elems as [|post elems IH]; simpl.
  - split; [constructor | eauto].
  - split.
    + intros (lis & H).
      apply bind_Returns_inv in H as (kt & Hitem & H).
      apply bind_Returns_inv in H as (rest & Hrest & _).
      constructor.
      * apply item_returns_iff. eauto.
      * apply IH. eauto.
    + intros Hall. apply Forall_cons in Hall as [Hpost Hall].
      apply item_returns_iff in Hpost as (kt & ->).
      apply IH in Hall as (rest & ->). simpl. eauto.
Qed.

(** X12.  The component function returns exactly when the items of the
    region are an array none of whose elements is [undefined] or [null];
    on any other value of [posts.posts] it throws, whatever the flags
    are. *)
Theorem posts_view_returns_iff (s : store.RootState) :
  (exists v, Posts.Posts s = Returns v)
  <-> (exists elems,
         postSlice.posts (store.posts s) = VArr elems
         /\ Forall (fun post => post <> VUndefined /\ post <> VNull) elems).
Proof.
  unfold Posts.Posts. cbv zeta. split.
  - intros (v & H). apply bind_Returns_inv in H as (lis & Hmap & _).
    destruct (postSlice.posts (store.posts s)) as [| | | | |elems|];
      try discriminate Hmap.
    exists elems. split; [reflexivity|].
    apply mapM_item_returns_iff. eauto.
  - intros (elems & -> & Hall).
    apply mapM_item_returns_iff in Hall as (lis & Hlis).
    simpl. rewrite Hlis. simpl. eauto.
Qed.

(** X13.  In a region the reducer can reach from the initial one, the view
    never carries the loading paragraph and the error paragraph at once. *)
Theorem view_never_loading_and_error (s : store.RootState) (v : Posts.View) :
  postSlice.reachable (store.posts s) ->
  Posts.Posts s = Returns v ->
  Posts.loading_line v = true ->
  Posts.error_line v = None.
Proof.
  intros Hreach Hview Hload.
  unfold Posts.Posts in Hview. cbv zeta in Hview.
  apply bind_Returns_inv in Hview as (lis & _ & [= <-]).
  simpl in *.
  now rewrite (proj1 (reachable_flags _ _ Hreach) Hload).
Qed.

Lemma view_never_loading_and_error_witness :
  let s := {| store.counters := counterSlice.initialState;
              store.posts := postSlice.extraReducers.pending
                               postSlice.initialState |} in
  let v := {| Posts.loading_line := true; Posts.error_line := None;
              Posts.items := [] |} in
  postSlice.reachable (store.posts s)
  /\ Posts.Posts s = Returns v
  /\ Posts.loading_line v = true
  /\ Posts.error_line v = None.
Proof.
  cbv zeta.
  assert (H : postSlice.reachable
                (postSlice.extraReducers.pending postSlice.initialState)).
  { apply (postSlice.reachable_step _ postSlice.initialState
             (asyncThunk.pending postSlice.typePrefix));
      [apply postSlice.reachable_init | exact I | reflexivity]. }
  split; [exact H|]. split; [reflexivity|]. split; [reflexivity|].
  exact (view_never_loading_and_error
           {| store.counters := counterSlice.initialState;
              store.posts := postSlice.extraReducers.pending
                               postSlice.initialState |}
           {| Posts.loading_line := true; Posts.error_line := None;
              Posts.items := [] |}
           H eq_refl eq_refl).
Defined.

(** X14.  The payload creator fulfils with any body that parses.  When the
    parsed body is not an array, as an error object sent with a failing
    status is not, the mount effect stores it as the items and the
    component function throws on the snapshot it leaves. *)
Theorem non_array_body_breaks_view (s : store.RootState)
        (fetch : string -> Completion postSlice.Response)
        (response : postSlice.Response) (data : JsVal) :
  fetch postSlice.url = Returns response ->
  postSlice.json response = Returns data ->
  (forall elems, data <> VArr elems) ->
  snd (Posts.mount s fetch) = None
  /\ postSlice.posts (store.posts (fst (Posts.mount s fetch))) = data
  /\ exists e, Posts.Posts (fst (Posts.mount s fetch)) = Throws e.
Proof.
  intros Hfetch Hjson Hnot.
  unfold Posts.mount, postSlice.fetchPosts, asyncThunk.dispatched,
    postSlice.payloadCreator.
  rewrite Hfetch. cbn [bind]. rewrite Hjson. cbn [bind].
  change (store.dispatch_all s
            [ asyncThunk.pending postSlice.typePrefix;
              asyncThunk.fulfilled postSlice.typePrefix data ])
    with ({| store.counters := store.counters s;
             store.posts :=
               {| postSlice.posts := data;
                  postSlice.isLoading := false;
                  postSlice.isError := false;
                  postSlice.error := VStr "" |} |}, @None JsError).
  cbn [fst snd].
  split; [reflexivity|]. split; [reflexivity|].
  unfold Posts.Posts. cbv zeta. simpl.
  destruct data as [| | | | |elems|]; simpl; eauto.
  now destruct (Hnot elems).
Qed.

Lemma non_array_body_breaks_view_witness :
  let body := VObj [ ("error", VStr "Not Found") ] in
  let response := postSlice.mkResponse 404 (Returns body) in
  postSlice.ok response = false
  /\ snd (Posts.mount store.initialState (fun _ => Returns response)) = None
  /\ postSlice.posts
       (store.posts
          (fst (Posts.mount store.initialState (fun _ => Returns response))))
     = body
  /\ exists e,
       Posts.Posts
         (fst (Posts.mount store.initialState (fun _ => Returns response)))
       = Throws e.
Proof.
  cbv zeta. split; [reflexivity|].
  refine (non_array_body_breaks_view store.initialState
            (fun _ => Returns
                        (postSlice.mkResponse 404
                           (Returns (VObj [ ("error", VStr "Not Found") ]))))
            (postSlice.mkResponse 404
               (Returns (VObj [ ("error", VStr "Not Found") ])))
            (VObj [ ("error", VStr "Not Found") ])
            eq_refl eq_refl _).
  intros elems. discriminate.
Defined.

(** X15.  A rejected fetch keeps what was on screen: when the component
    function returns on a snapshot, it returns after a rejected action as
    well, with the same list items, no loading paragraph and the message of
    the error in the error paragraph. *)
Theorem rejected_keeps_items_on_screen (s : store.RootState)
        (v : Posts.View) (err : JsError) :
  Posts.Posts s = Returns v ->
  Posts.Posts
    (fst (store.dispatch s (asyncThunk.rejected postSlice.typePrefix err)))
  = Returns {| Posts.loading_line := false;
               Posts.error_line := Some (VStr (Js.message err));
               Posts.items := Posts.items v |}.
Proof.
  intros Hview.
  unfold Posts.Posts in *. cbv zeta in *.
  apply bind_Returns_inv in Hview as (lis & Hmap & [= <-]).
  change (store.dispatch s (asyncThunk.rejected postSlice.typePrefix err))
    with ({| store.counters := store.counters s;
             store.posts :=
               {| postSlice.posts := postSlice.posts (store.posts s);
                  postSlice.isLoading := false;
                  postSlice.isError := true;
                  postSlice.error := VStr (Js.message err) |} |},
          @None JsError).
  simpl. now rewrite Hmap.
Qed.

Lemma rejected_keeps_items_on_screen_witness :
  let data := VArr [ VObj [ ("id", VNum 1); ("title", VStr "a") ] ] in
  let s := {| store.counters := counterSlice.initialState;
              store.posts :=
                {| postSlice.posts := data; postSlice.isLoading := false;
                   postSlice.isError := false;
                   postSlice.error := VStr "" |} |} in
  let v := {| Posts.loading_line := false; Posts.error_line := None;
              Posts.items := [ (VNum 1, VStr "a") ] |} in
  Posts.Posts s = Returns v
  /\ Posts.Posts
       (fst (store.dispatch s
               (asyncThunk.rejected postSlice.typePrefix
                  (TypeError "network down"))))
     = Returns {| Posts.loading_line := false;
                  Posts.error_line := Some (VStr "network down");
                  Posts.items := [ (VNum 1, VStr "a") ] |}.
Proof.
  cbv zeta. split; [reflexivity|].
  exact (rejected_keeps_items_on_screen
           {| store.counters := counterSlice.initialState;
              store.posts :=
                {| postSlice.posts :=
                     VArr [ VObj [ ("id", VNum 1); ("title", VStr "a") ] ];
                   postSlice.isLoading := false;
                   postSlice.isError := false;
                   postSlice.error := VStr "" |} |}
           {| Posts.loading_line := false; Posts.error_line := None;
              Posts.items := [ (VNum 1, VStr "a") ] |}
           (TypeError "network down") eq_refl).
Defined.

(** ** counterSlice: two counters with one id *)

(** X16.  When two counters carry the id [k], a counter action on [k]
    moves the first of them and leaves the later one as it is: the entry
    that changes is the first one of id [k], whatever follows it. *)
Theorem first_match_moves (pre post : counterSlice.State) (k v : Z) :
  Forall (fun c => counterSlice.id c <> k) pre ->
  counterSlice.reducer (pre ++ counterSlice.mkCounter k v :: post)
    (counterSlice.actions.increment (counterSlice.id_payload k))
  = Returns (pre ++ counterSlice.mkCounter k (v + 1) :: post)
  /\ counterSlice.reducer (pre ++ counterSlice.mkCounter k v :: post)
       (counterSlice.actions.decrement (counterSlice.id_payload k))
     = Returns (pre ++ counterSlice.mkCounter k (v - 1) :: post).
Proof.
  intros Hpre. split.
  - apply (find_update_hit Z.succ); exact Hpre.
  - apply (find_update_hit Z.pred); exact Hpre.
Qed.

Lemma first_match_moves_witness :
  let r := [ counterSlice.mkCounter 1 0; counterSlice.mkCounter 2 0;
             counterSlice.mkCounter 2 5 ] in
  Forall (fun c => counterSlice.id c <> 2) [ counterSlice.mkCounter 1 0 ]
  /\ counterSlice.reducer r
       (counterSlice.actions.increment (counterSlice.id_payload 2))
     = Returns [ counterSlice.mkCounter 1 0; counterSlice.mkCounter 2 1;
                 counterSlice.mkCounter 2 5 ].
Proof.
  cbv zeta.
  assert (H : Forall (fun c => counterSlice.id c <> 2)
                     [ counterSlice.mkCounter 1 0 ])
    by (repeat constructor; simpl; lia).
  split; [exact H|].
  exact (proj1 (first_match_moves [ counterSlice.mkCounter 1 0 ]
                  [ counterSlice.mkCounter 2 5 ] 2 0 H)).
Defined.
